(** * Storage facade, local/remote stores and the price update queue

    A shallow embedding of [src/services/storage.js] (StorageService),
    [src/services/queues/priceQueue.js] (PriceQueue), the remote store
    adapter (SupabaseService, src/unnamed/part_001) and the local store
    (MemoryStorage, src/unnamed/part_002).

    Time is the millisecond clock of [Date.now()]; an ISO timestamp
    written with [new Date().toISOString()] is kept as the millisecond
    value it denotes, so [new Date(t) < new Date(u)] is [t < u]. *)

From Stdlib Require Import List String ZArith QArith Bool Lia.
Import ListNotations.
Open Scope string_scope.

(* ------------------------------------------------------------------ *)
(** ** JavaScript values *)

Module JS.

#[local] Set Warnings "-register-all".

(** The values that reach the code: primitives and plain objects (a list
    of own properties).  Numbers are kept as rationals plus [NaN]. *)
Inductive jsval : Type :=
| JUndef
| JNull
| JBool (b : bool)
| JNum (q : Q)
| JNaN
| JStr (s : string)
| JObj (fields : list (string * jsval)).

(** [v.k]: own property lookup; [undefined] when absent or when [v]
    is a primitive (callers guard against [null]/[undefined]). *)
Fixpoint assoc_prop (fs : list (string * jsval)) (k : string) : jsval :=
  match fs with
  | [] => JUndef
  | (k', v) :: fs' => if String.eqb k k' then v else assoc_prop fs' k
  end.

Definition prop (v : jsval) (k : string) : jsval :=
  match v with
  | JObj fs => assoc_prop fs k
  | _ => JUndef
  end.

(** ECMAScript ToBoolean. *)
Definition truthy (v : jsval) : bool :=
  match v with
  | JUndef | JNull | JNaN => false
  | JBool b => b
  | JNum q => negb (Qeq_bool q 0)
  | JStr s => negb (String.eqb s "")
  | JObj _ => true
  end.

Definition typeof_number (v : jsval) : bool :=
  match v with JNum _ | JNaN => true | _ => false end.

Definition typeof_string (v : jsval) : bool :=
  match v with JStr _ => true | _ => false end.

(** [typeof v === 'object'] ([null] included, as in JavaScript). *)
Definition typeof_object (v : jsval) : bool :=
  match v with JObj _ | JNull => true | _ => false end.

Definition is_undefined (v : jsval) : bool :=
  match v with JUndef => true | _ => false end.

(** SameValueZero, the key comparison of [Map].  Objects are compared by
    reference in JavaScript; references are not tracked here and no
    object ever reaches a map key through the facade (the validated
    [poolAddress] and config [key] are strings), so they never match. *)
Definition key_eqb (a b : jsval) : bool :=
  match a, b with
  | JUndef, JUndef | JNull, JNull | JNaN, JNaN => true
  | JBool x, JBool y => Bool.eqb x y
  | JNum x, JNum y => Qeq_bool x y
  | JStr x, JStr y => String.eqb x y
  | _, _ => false
  end.

(** [Map] as an insertion-ordered association list. *)
Fixpoint map_get {V} (m : list (jsval * V)) (k : jsval) : option V :=
  match m with
  | [] => None
  | (k', v) :: m' => if key_eqb k k' then Some v else map_get m' k
  end.

(** [m.set(k, v)]: replaces in place, or appends a new key. *)
Fixpoint map_set {V} (m : list (jsval * V)) (k : jsval) (v : V)
  : list (jsval * V) :=
  match m with
  | [] => [(k, v)]
  | (k', v') :: m' =>
      if key_eqb k k' then (k', v) :: m' else (k', v') :: map_set m' k v
  end.

Fixpoint map_delete {V} (m : list (jsval * V)) (k : jsval)
  : list (jsval * V) :=
  match m with
  | [] => []
  | (k', v') :: m' =>
      if key_eqb k k' then m' else (k', v') :: map_delete m' k
  end.

End JS.

Import JS.

(* ------------------------------------------------------------------ *)
(** ** Local store: MemoryStorage (src/unnamed/part_002)

    The class body defines [saveTokenPrice], [getTokenPrice],
    [getPriceHistory], [clearHistory] and [updateConfig] twice; the later
    definitions (lines 365-430) are the ones in force and are the ones
    embedded here.  [saveToFiles] catches every error, so persisting
    never makes these methods throw. *)

Module Memory.

Record entry := mkEntry {
  e_token : jsval;
  e_price : jsval;
  e_updated_at : Z
}.

Record hist_entry := mkHist {
  h_price : jsval;
  h_updated_at : Z
}.

Record mem := mkMem {
  prices : list (jsval * entry);
  history : list (jsval * list hist_entry);
  config : list (jsval * jsval)
}.

Definition empty : mem := mkMem [] [] [].

(** [history.unshift(e); if (history.length > 24) history.length = 24]. *)
Definition push_front_24 (h : list hist_entry) (e : hist_entry)
  : list hist_entry :=
  let h1 := e :: h in
  if Nat.ltb 24 (List.length h1) then firstn 24 h1 else h1.

Definition get_history (m : mem) (pool : jsval) : list hist_entry :=
  match map_get (history m) pool with Some h => h | None => [] end.

(** [saveTokenPrice(token, price)] at clock [now]. *)
Definition saveTokenPrice (now : Z) (token price : jsval) (m : mem) : mem :=
  let key := prop token "poolAddress" in
  let prices' := map_set (prices m) key (mkEntry token price now) in
  let h := get_history m key in
  let h' := push_front_24 h (mkHist (prop price "price") now) in
  mkMem prices' (map_set (history m) key h') (config m).

(** [getTokenPrice(poolAddress)]: [None] stands for [null]. *)
Definition getTokenPrice (now : Z) (pool : jsval) (m : mem) : option jsval :=
  match map_get (prices m) pool with
  | None => None
  | Some d =>
      if Z.ltb (e_updated_at d) (now - 30 * 1000) then None
      else Some (e_price d)
  end.

Definition getPriceHistory (pool : jsval) (m : mem) : list hist_entry :=
  get_history m pool.

Definition clearHistory (pool : jsval) (m : mem) : mem :=
  mkMem (prices m) (map_delete (history m) pool) (config m).

Definition updateConfig (key value : jsval) (m : mem) : mem :=
  mkMem (prices m) (history m) (map_set (config m) key value).

(** [getConfig(key)]: [value ? { key, value } : null]. *)
Definition getConfig (key : jsval) (m : mem) : option jsval :=
  match map_get (config m) key with
  | Some value => if truthy value then Some (JObj [("key", key); ("value", value)]) else None
  | None => None
  end.

End Memory.

(* ------------------------------------------------------------------ *)
(** ** Remote store: SupabaseService (src/unnamed/part_001)

    The database is kept as its rows.  [available] is the credential
    check done once in the constructor; [reachable] says whether requests
    currently succeed (an error response makes the methods return their
    failure value).  Rows of [token_prices] are kept newest first, so
    [.order('updated_at', {ascending:false}).limit(1)] is the first row
    of the pool. *)

Module Remote.

Record row := mkRow {
  r_token_address : jsval;
  r_pool_address : jsval;
  r_ticker : jsval;
  r_name : jsval;
  r_price : jsval;
  r_market_cap : jsval;
  r_liquidity : jsval;
  r_volume_24h : jsval;
  r_dex_id : jsval;
  r_updated_at : Z
}.

(** A stored config value is [value.toString()]; the string is kept
    symbolically as the value it was computed from. *)
Inductive cfg_value := CfgToString (v : jsval).

Record db := mkDb {
  available : bool;
  reachable : bool;
  rows : list row;
  bot_config : list (jsval * cfg_value)
}.

Definition isAvailable (d : db) : bool := available d.

Definition saveTokenPrice (now : Z) (token price : jsval) (d : db) : db :=
  if reachable d then
    mkDb (available d) (reachable d)
      (mkRow (prop token "address") (prop token "poolAddress")
             (prop token "ticker") (prop token "name")
             (prop price "price") (prop price "marketCap")
             (prop price "liquidity") (prop price "volume24h")
             (prop price "dexId") now :: rows d)
      (bot_config d)
  else d.

Fixpoint latest_row (rs : list row) (pool : jsval) : option row :=
  match rs with
  | [] => None
  | r :: rs' =>
      if key_eqb (r_pool_address r) pool then Some r else latest_row rs' pool
  end.

Definition getTokenPrice (now : Z) (pool : jsval) (d : db) : option jsval :=
  if negb (reachable d) then None else
  match latest_row (rows d) pool with
  | None => None
  | Some r =>
      if Z.ltb (r_updated_at r) (now - 30 * 1000) then None
      else Some (JObj [("price", r_price r); ("marketCap", r_market_cap r);
                       ("liquidity", r_liquidity r);
                       ("volume24h", r_volume_24h r); ("dexId", r_dex_id r)])
  end.

Fixpoint rows_of (rs : list row) (pool : jsval) : list row :=
  match rs with
  | [] => []
  | r :: rs' =>
      if key_eqb (r_pool_address r) pool then r :: rows_of rs' pool
      else rows_of rs' pool
  end.

(** [getPriceHistory(poolAddress, limit = 24)]: prices and timestamps. *)
Definition getPriceHistory (pool : jsval) (limit : nat) (d : db)
  : list (jsval * Z) :=
  if reachable d then
    map (fun r => (r_price r, r_updated_at r)) (firstn limit (rows_of (rows d) pool))
  else [].

(** [updateConfig(key, value)]: [value.toString()] throws on [null] and
    [undefined]; the [catch] turns that into [false]. *)
Definition updateConfig (key value : jsval) (d : db) : db * bool :=
  match value with
  | JUndef | JNull => (d, false)
  | _ =>
      if reachable d then
        (mkDb (available d) (reachable d) (rows d)
              (map_set (bot_config d) key (CfgToString value)), true)
      else (d, false)
  end.

(** [getConfig(key)]: the [bot_config] row of [key], or [null] when the
    request fails or finds no row ([.single()] reports an error then).
    Of the row, the stored value is kept. *)
Definition getConfig (key : jsval) (d : db) : option cfg_value :=
  if reachable d then map_get (bot_config d) key else None.

(** [clearHistory(poolAddress)]: deletes the pool's rows. *)
Definition clearHistory (pool : jsval) (d : db) : db :=
  if reachable d then
    mkDb (available d) (reachable d)
      (filter (fun r => negb (key_eqb (r_pool_address r) pool)) (rows d))
      (bot_config d)
  else d.

End Remote.

(* ------------------------------------------------------------------ *)
(** ** Synchronization buckets of StorageService (storage.js 19-119)

    Generic in the buffered operations [Op] and in the world [W] they act
    on; [exec now o w] runs one buffered closure at clock [now] and says
    whether it threw.  Each [await] of a flush is a point where other
    calls may run, so the flush is also given as its three phases:
    [flush_begin] (lock, snapshot, empty the bucket, stamp [lastSync]),
    [run_ops] (the [for ... of] loop) and [flush_end] (the [finally]). *)

Module Sync.

Section SyncQueue.

Variables Op W : Type.
Variable exec : Z -> Op -> W -> W * bool.

Record sync_state := mkSync {
  syncLock : list string;
  syncQueue : list (string * list Op);
  lastSync : list (string * Z)
}.

Definition empty_sync : sync_state := mkSync [] [] [].

(** [this.syncInterval]. *)
Definition syncInterval : Z := 5000.

Fixpoint sget {V} (m : list (string * V)) (k : string) : option V :=
  match m with
  | [] => None
  | (k', v) :: m' => if String.eqb k k' then Some v else sget m' k
  end.

Fixpoint sset {V} (m : list (string * V)) (k : string) (v : V)
  : list (string * V) :=
  match m with
  | [] => [(k, v)]
  | (k', v') :: m' =>
      if String.eqb k k' then (k', v) :: m' else (k', v') :: sset m' k v
  end.

Definition lock_held (ty : string) (ss : sync_state) : bool :=
  existsb (String.eqb ty) (syncLock ss).

(** [acquireLock(key)]: [None] is [false] (already held). *)
Definition acquireLock (ty : string) (ss : sync_state) : option sync_state :=
  if lock_held ty ss then None
  else Some (mkSync (ty :: syncLock ss) (syncQueue ss) (lastSync ss)).

(** [releaseLock(key)]: [this.syncLock.delete(key)]. *)
Definition releaseLock (ty : string) (ss : sync_state) : sync_state :=
  mkSync (filter (fun k => negb (String.eqb ty k)) (syncLock ss))
         (syncQueue ss) (lastSync ss).

Definition bucket (ty : string) (ss : sync_state) : list Op :=
  match sget (syncQueue ss) ty with Some l => l | None => [] end.

Definition last_sync_time (ty : string) (ss : sync_state) : Z :=
  match sget (lastSync ss) ty with Some t => t | None => 0 end.

(** First half of [queueSync]: create the bucket if needed and push. *)
Definition push_op (ty : string) (o : Op) (ss : sync_state) : sync_state :=
  mkSync (syncLock ss) (sset (syncQueue ss) ty (app (bucket ty ss) [o]))
         (lastSync ss).

Definition flush_begin (now : Z) (ty : string) (ss : sync_state)
  : option (list Op * sync_state) :=
  match acquireLock ty ss with
  | None => None
  | Some ss1 =>
      Some (bucket ty ss1,
            mkSync (syncLock ss1) (sset (syncQueue ss1) ty [])
                   (sset (lastSync ss1) ty now))
  end.

(** Each operation runs in its own [try]; a throw is logged and skipped. *)
Fixpoint run_ops (now : Z) (ops : list Op) (w : W) : W :=
  match ops with
  | [] => w
  | o :: os => run_ops now os (fst (exec now o w))
  end.

Definition flush_end (ty : string) (ss : sync_state) : sync_state :=
  releaseLock ty ss.

(** [processSyncQueue(type)]. *)
Definition processSyncQueue (now : Z) (ty : string) (s : sync_state * W)
  : sync_state * W :=
  let (ss, w) := s in
  match flush_begin now ty ss with
  | None => (ss, w)
  | Some (ops, ss1) => (flush_end ty ss1, run_ops now ops w)
  end.

(** [queueSync(type, operation)]. *)
Definition queueSync (now : Z) (ty : string) (o : Op) (s : sync_state * W)
  : sync_state * W :=
  let (ss, w) := s in
  let ss1 := push_op ty o ss in
  if Z.ltb syncInterval (now - last_sync_time ty ss1)
  then processSyncQueue now ty (ss1, w)
  else (ss1, w).

End SyncQueue.

Arguments mkSync {Op}.
Arguments empty_sync {Op}.
Arguments syncLock {Op}.
Arguments syncQueue {Op}.
Arguments lastSync {Op}.
Arguments lock_held {Op}.
Arguments acquireLock {Op}.
Arguments releaseLock {Op}.
Arguments bucket {Op}.
Arguments last_sync_time {Op}.
Arguments push_op {Op}.
Arguments flush_begin {Op}.
Arguments run_ops {Op W}.
Arguments flush_end {Op}.
Arguments processSyncQueue {Op W}.
Arguments queueSync {Op W}.

End Sync.

Import Sync.

(* ------------------------------------------------------------------ *)
(** ** The facade: StorageService (storage.js) *)

Module Storage.

(** Which object [this.storage] refers to. *)
Inductive store_kind := SupabaseStore | MemoryStore.

(** The closures handed to [queueSync]. *)
Inductive sync_op :=
| OpMemSavePrice (token price : jsval)      (* memoryStorage.saveTokenPrice *)
| OpRemoteUpdateConfig (key value : jsval). (* supabase.updateConfig *)

Record stores := mkStores {
  mem_s : Memory.mem;
  remote_s : Remote.db
}.

(** Neither closure throws: both callees catch their own errors. *)
Definition exec_op (now : Z) (o : sync_op) (w : stores) : stores * bool :=
  match o with
  | OpMemSavePrice token price =>
      (mkStores (Memory.saveTokenPrice now token price (mem_s w)) (remote_s w),
       false)
  | OpRemoteUpdateConfig key value =>
      (mkStores (mem_s w) (fst (Remote.updateConfig key value (remote_s w))),
       false)
  end.

Record facade := mkFacade {
  useSupabase : bool;
  storage : store_kind;
  sync : sync_state sync_op;
  st : stores
}.

(** [new StorageService()] over the two store singletons. *)
Definition init (m : Memory.mem) (d : Remote.db) : facade :=
  mkFacade true SupabaseStore empty_sync (mkStores m d).

Inductive err := InvalidData | QueueFull | InvalidQueueData.

Inductive result (A : Type) :=
| Ok (a : A)
| Throw (e : err).
Arguments Ok {A}.
Arguments Throw {A}.

(** [validateData(data, type)], its (truthy) result read as a boolean. *)
Definition validateData (data : jsval) (ty : string) : bool :=
  if negb (truthy data) then false else
  if String.eqb ty "price" then
    truthy (prop data "price") && typeof_number (prop data "price") &&
    truthy (prop data "marketCap") && typeof_number (prop data "marketCap") &&
    truthy (prop data "liquidity") && typeof_number (prop data "liquidity")
  else if String.eqb ty "token" then
    truthy (prop data "address") && typeof_string (prop data "address") &&
    truthy (prop data "poolAddress") && typeof_string (prop data "poolAddress") &&
    truthy (prop data "ticker") && typeof_string (prop data "ticker")
  else if String.eqb ty "config" then
    truthy (prop data "key") && typeof_string (prop data "key") &&
    negb (is_undefined (prop data "value"))
  else false.

Definition with_sync (f : facade) (p : sync_state sync_op * stores) : facade :=
  mkFacade (useSupabase f) (storage f) (fst p) (snd p).

Definition with_stores (f : facade) (w : stores) : facade :=
  mkFacade (useSupabase f) (storage f) (sync f) w.

(** [this.storage.saveTokenPrice(token, price)]. *)
Definition storage_save (k : store_kind) (now : Z) (token price : jsval)
    (w : stores) : stores :=
  match k with
  | SupabaseStore =>
      mkStores (mem_s w) (Remote.saveTokenPrice now token price (remote_s w))
  | MemoryStore =>
      mkStores (Memory.saveTokenPrice now token price (mem_s w)) (remote_s w)
  end.

(** [saveTokenPrice(token, price)]. *)
Definition saveTokenPrice (now : Z) (token price : jsval) (f : facade)
  : result facade :=
  if negb (validateData token "token") || negb (validateData price "price")
  then Throw InvalidData
  else
    let f1 := with_stores f (storage_save (storage f) now token price (st f)) in
    if useSupabase f1
    then Ok (with_sync f1 (queueSync exec_op now "price"
                             (OpMemSavePrice token price) (sync f1, st f1)))
    else Ok f1.

(** [updateConfig(key, value)]; the [try] never sees an error, so the
    call resolves to [true] once validation passes. *)
Definition updateConfig (now : Z) (key value : jsval) (f : facade)
  : result facade :=
  if negb (validateData (JObj [("key", key); ("value", value)]) "config")
  then Throw InvalidData
  else
    let f1 := with_stores f (mkStores (Memory.updateConfig key value
                                         (mem_s (st f))) (remote_s (st f))) in
    if useSupabase f1
    then Ok (with_sync f1 (queueSync exec_op now "config"
                             (OpRemoteUpdateConfig key value) (sync f1, st f1)))
    else Ok f1.

Definition isSupabaseAvailable (f : facade) : bool :=
  Remote.isAvailable (remote_s (st f)).

(** [setStorageMode(useSupabase)]. *)
Definition setStorageMode (b : bool) (f : facade) : facade :=
  if b && negb (isSupabaseAvailable f) then f
  else mkFacade b (storage f) (sync f) (st f).

(** [getTokenPrice(poolAddress)]: delegated to [this.storage]. *)
Definition getTokenPrice (now : Z) (pool : jsval) (f : facade) : option jsval :=
  match storage f with
  | SupabaseStore => Remote.getTokenPrice now pool (remote_s (st f))
  | MemoryStore => Memory.getTokenPrice now pool (mem_s (st f))
  end.

(** [clearHistory(poolAddress)]: delegated to [this.storage]. *)
Definition clearHistory (pool : jsval) (f : facade) : facade :=
  match storage f with
  | SupabaseStore =>
      with_stores f (mkStores (mem_s (st f))
                              (Remote.clearHistory pool (remote_s (st f))))
  | MemoryStore =>
      with_stores f (mkStores (Memory.clearHistory pool (mem_s (st f)))
                              (remote_s (st f)))
  end.

End Storage.

(* ------------------------------------------------------------------ *)
(** ** PriceQueue (src/services/queues/priceQueue.js) *)

Module Queue.

Record item := mkItem {
  id : string;
  data : jsval;
  addedAt : Z;
  retries : nat;
  lastError : option string
}.

(** [{ ...item, finalError, failedAt }]. *)
Record failed_entry := mkFailed {
  f_item : item;
  finalError : string;
  failedAt : Z
}.

Record qstats := mkStats {
  processed : nat;
  failed : nat;
  retried : nat;
  timeouts : nat
}.

Record pqueue := mkQ {
  maxQueueSize : nat;
  processingTimeout : Z;
  handlerTimeout : Z;
  maxRetries : nat;
  processing : bool;
  queue : list item;
  failedItems : list (string * failed_entry);
  stats : qstats
}.

Record options := mkOptions {
  opt_maxQueueSize : option nat;
  opt_processingTimeout : option Z;
  opt_handlerTimeout : option Z;
  opt_maxRetries : option nat
}.

(** [options.x || d]: an absent or zero option takes the default. *)
Definition or_nat (o : option nat) (d : nat) : nat :=
  match o with Some n => if Nat.eqb n 0 then d else n | None => d end.

Definition or_Z (o : option Z) (d : Z) : Z :=
  match o with Some n => if Z.eqb n 0 then d else n | None => d end.

(** [new PriceQueue(options)]. *)
Definition create (o : options) : pqueue :=
  mkQ (or_nat (opt_maxQueueSize o) 1000) (or_Z (opt_processingTimeout o) 30000)
      (or_Z (opt_handlerTimeout o) 5000) (or_nat (opt_maxRetries o) 3)
      false [] [] (mkStats 0 0 0 0).

(** The exported instance. *)
Definition priceQueue : pqueue :=
  create (mkOptions (Some 1000%nat) (Some 30000%Z) (Some 5000%Z) (Some 3%nat)).

Definition set_queue (q : pqueue) (l : list item) : pqueue :=
  mkQ (maxQueueSize q) (processingTimeout q) (handlerTimeout q) (maxRetries q)
      (processing q) l (failedItems q) (stats q).

Definition set_processing (q : pqueue) (b : bool) : pqueue :=
  mkQ (maxQueueSize q) (processingTimeout q) (handlerTimeout q) (maxRetries q)
      b (queue q) (failedItems q) (stats q).

Definition set_failedItems (q : pqueue) (fi : list (string * failed_entry))
  : pqueue :=
  mkQ (maxQueueSize q) (processingTimeout q) (handlerTimeout q) (maxRetries q)
      (processing q) (queue q) fi (stats q).

Definition set_stats (q : pqueue) (s : qstats) : pqueue :=
  mkQ (maxQueueSize q) (processingTimeout q) (handlerTimeout q) (maxRetries q)
      (processing q) (queue q) (failedItems q) s.

Definition bump_processed (s : qstats) : qstats :=
  mkStats (S (processed s)) (failed s) (retried s) (timeouts s).
Definition bump_failed (s : qstats) : qstats :=
  mkStats (processed s) (S (failed s)) (retried s) (timeouts s).
Definition bump_retried (s : qstats) : qstats :=
  mkStats (processed s) (failed s) (S (retried s)) (timeouts s).
Definition bump_timeouts (s : qstats) : qstats :=
  mkStats (processed s) (failed s) (retried s) (S (timeouts s)).

(** [validateData(data)]. *)
Definition validateData (d : jsval) : bool := truthy d && typeof_object d.

(** [add(data)] up to [this.queue.push(item)]; [now] is [Date.now()] and
    [i] the generated id. *)
Definition enqueue (now : Z) (i : string) (d : jsval) (q : pqueue)
  : Storage.result pqueue :=
  if Nat.leb (maxQueueSize q) (List.length (queue q))
  then Storage.Throw Storage.QueueFull
  else if negb (validateData d) then Storage.Throw Storage.InvalidQueueData
  else Storage.Ok (set_queue q (app (queue q) [mkItem i d now 0 None])).

(** What the outside world decides during a drain: the clock read by
    the loop's timeout check at iteration [k], whether the handlers of
    the item taken at iteration [k] all fulfilled ([None]) or the error
    message of [processItem] ([Some msg]; a handler timeout is one such
    rejection), and the clock read by [handleFailedItem]. *)
Record env := mkEnv {
  start : Z;
  clock : nat -> Z;
  outcome : nat -> item -> option string;
  fail_time : nat -> Z
}.

(** [handleFailedItem(item, error)]. *)
Definition handleFailedItem (now : Z) (it : item) (msg : string) (q : pqueue)
  : pqueue :=
  let q1 := set_stats q (bump_failed (stats q)) in
  if Nat.ltb (retries it) (maxRetries q1) then
    let it' := mkItem (id it) (data it) (addedAt it) (S (retries it)) (Some msg) in
    set_queue (set_stats q1 (bump_retried (stats q1))) (app (queue q1) [it'])
  else
    set_failedItems q1
      (Sync.sset (failedItems q1) (id it) (mkFailed it msg now)).

(** The [while] loop of [processQueue]; iteration [k] onwards. *)
Fixpoint drain (e : env) (fuel k : nat) (q : pqueue) : pqueue :=
  match fuel with
  | O => q
  | S fuel' =>
      match queue q with
      | [] => q
      | it :: rest =>
          if Z.ltb (processingTimeout q) (clock e k - start e)
          then set_stats q (bump_timeouts (stats q))
          else
            let q1 := set_queue q rest in
            match outcome e k it with
            | None => drain e fuel' (S k) (set_stats q1 (bump_processed (stats q1)))
            | Some msg => drain e fuel' (S k) (handleFailedItem (fail_time e k) it msg q1)
            end
      end
  end.

(** Iterations the loop can still make: each item is taken at most
    [maxRetries - retries + 1] more times. *)
Definition budget (q : pqueue) : nat :=
  fold_right (fun it n => (S (maxRetries q - retries it) + n)%nat) 0%nat (queue q).

(** [processQueue()]. *)
Definition processQueue (e : env) (q : pqueue) : pqueue :=
  if processing q then q
  else set_processing (drain e (budget q) 0 (set_processing q true)) false.

(** [add(data)]. *)
Definition add (e : env) (now : Z) (i : string) (d : jsval) (q : pqueue)
  : Storage.result pqueue :=
  match enqueue now i d q with
  | Storage.Throw x => Storage.Throw x
  | Storage.Ok q1 => Storage.Ok (if processing q1 then q1 else processQueue e q1)
  end.

(** [cleanupFailedItems()] at clock [now].  Deleting the entry being
    visited does not disturb the iteration over a [Map], so every entry is
    examined once. *)
Definition cleanupFailedItems (now : Z) (q : pqueue) : pqueue :=
  let oneHourAgo := (now - 60 * 60 * 1000)%Z in
  set_failedItems q
    (filter (fun kv => negb (Z.ltb (failedAt (snd kv)) oneHourAgo)) (failedItems q)).

End Queue.

(* ================================================================== *)
(** * Properties *)

(** ** Map lemmas *)

Definition is_object (v : jsval) : bool :=
  match v with JObj _ => true | _ => false end.

Lemma key_eqb_refl (k : jsval) : is_object k = false -> key_eqb k k = true.
Proof.
  destruct k; simpl; intros H; try reflexivity; try discriminate.
  - apply eqb_reflx.
  - apply Qeq_bool_refl.
  - apply String.eqb_refl.
Qed.

Lemma map_get_set_same {V} (m : list (jsval * V)) (k : jsval) (v : V) :
  key_eqb k k = true -> map_get (map_set m k v) k = Some v.
Proof.
  intros Hk. induction m as [|[k' v'] m IH]; simpl.
  - rewrite Hk. reflexivity.
  - destruct (key_eqb k k') eqn:E; simpl; rewrite E; [reflexivity | exact IH].
Qed.

Lemma map_set_forall {V} (p : V -> bool) (m : list (jsval * V)) k v :
  forallb (fun kv => p (snd kv)) m = true -> p v = true ->
  forallb (fun kv => p (snd kv)) (map_set m k v) = true.
Proof.
  intros Hm Hv. induction m as [|[k' v'] m IH]; simpl in *.
  - rewrite Hv. reflexivity.
  - apply andb_true_iff in Hm as [H1 H2].
    destruct (key_eqb k k'); simpl.
    + rewrite Hv, H2. reflexivity.
    + rewrite H1, IH by exact H2. reflexivity.
Qed.

Lemma map_get_forall {V} (p : V -> bool) (m : list (jsval * V)) k v :
  forallb (fun kv => p (snd kv)) m = true -> map_get m k = Some v -> p v = true.
Proof.
  induction m as [|[k' v'] m IH]; simpl; intros Hm Hg; [discriminate|].
  apply andb_true_iff in Hm as [H1 H2].
  destruct (key_eqb k k'); [injection Hg as <-; exact H1 | exact (IH H2 Hg)].
Qed.

Lemma sget_sset_same {V} (m : list (string * V)) k v :
  sget (sset m k v) k = Some v.
Proof.
  induction m as [|[k' v'] m IH]; simpl.
  - rewrite String.eqb_refl. reflexivity.
  - destruct (String.eqb k k') eqn:E; simpl; rewrite E; [reflexivity | exact IH].
Qed.

(** ** Local history series *)

Module History.
Import Memory.

(** Newest first: timestamps never increase along the series. *)
Fixpoint newest_first (h : list hist_entry) : bool :=
  match h with
  | a :: ((b :: _) as t) => Z.leb (h_updated_at b) (h_updated_at a) && newest_first t
  | _ => true
  end.

Lemma newest_first_cons2 a b l :
  newest_first (a :: b :: l) = Z.leb (h_updated_at b) (h_updated_at a) && newest_first (b :: l).
Proof. reflexivity. Qed.

Definition bounded (h : list hist_entry) : bool := Nat.leb (List.length h) 24.

(** Every stored series is at most 24 long. *)
Definition hist_ok (m : mem) : bool :=
  forallb (fun kh => bounded (snd kh)) (history m).

(** Every stored series is newest first and no entry is later than [T]. *)
Definition ordered_upto (T : Z) (m : mem) : bool :=
  forallb (fun kh => newest_first (snd kh) &&
                     forallb (fun e => Z.leb (h_updated_at e) T) (snd kh))
          (history m).

Definition save_call : Type := (Z * jsval * jsval)%type.

Definition run_saves (calls : list save_call) (m : mem) : mem :=
  fold_left (fun m c => let '(t, tok, pr) := c in saveTokenPrice t tok pr m) calls m.

Fixpoint times_from (T : Z) (calls : list save_call) : bool :=
  match calls with
  | [] => true
  | (t, _, _) :: cs => Z.leb T t && times_from t cs
  end.

Lemma push_front_24_firstn h e : push_front_24 h e = firstn 24 (e :: h).
Proof.
  unfold push_front_24. destruct (Nat.ltb 24 (List.length (e :: h))) eqn:E.
  - reflexivity.
  - apply Nat.ltb_ge in E. symmetry. apply firstn_all2. exact E.
Qed.

Lemma push_front_24_bounded h e : bounded (push_front_24 h e) = true.
Proof.
  rewrite push_front_24_firstn. unfold bounded. apply Nat.leb_le.
  rewrite length_firstn. lia.
Qed.

Lemma newest_first_firstn n h : newest_first h = true -> newest_first (firstn n h) = true.
Proof.
  revert h. induction n as [|n IH]; intros h H; [reflexivity|].
  destruct h as [|a [|b t]]; [reflexivity| destruct n; reflexivity|].
  simpl in H. apply andb_true_iff in H as [H1 H2].
  destruct n as [|n]; [reflexivity|].
  specialize (IH (b :: t) H2). simpl in IH |- *. rewrite H1. exact IH.
Qed.

Lemma forallb_firstn {A} (p : A -> bool) n l :
  forallb p l = true -> forallb p (firstn n l) = true.
Proof.
  revert l. induction n; intros [|a l] H; simpl in *; try reflexivity.
  apply andb_true_iff in H as [H1 H2]. rewrite H1. apply IHn, H2.
Qed.

Lemma forallb_le_mono (T T' : Z) (h : list hist_entry) :
  (T <= T')%Z ->
  forallb (fun e => Z.leb (h_updated_at e) T) h = true ->
  forallb (fun e => Z.leb (h_updated_at e) T') h = true.
Proof.
  intros HT. induction h as [|a h IH]; simpl; [reflexivity|].
  intros H. apply andb_true_iff in H as [H1 H2].
  apply Z.leb_le in H1. rewrite IH by exact H2.
  replace (Z.leb (h_updated_at a) T') with true by (symmetry; apply Z.leb_le; lia).
  reflexivity.
Qed.

Lemma save_hist_ok t tok pr m : hist_ok m = true -> hist_ok (saveTokenPrice t tok pr m) = true.
Proof.
  intros H. unfold hist_ok, saveTokenPrice; simpl.
  apply (map_set_forall bounded); [exact H | apply push_front_24_bounded].
Qed.

Definition ordered_pred (T : Z) (h : list hist_entry) : bool :=
  newest_first h && forallb (fun e => Z.leb (h_updated_at e) T) h.

Lemma get_history_ordered T m pool :
  ordered_upto T m = true -> ordered_pred T (get_history m pool) = true.
Proof.
  intros H. unfold get_history. destruct (map_get (history m) pool) eqn:E.
  - exact (map_get_forall (ordered_pred T) _ _ _ H E).
  - reflexivity.
Qed.

Lemma ordered_upto_mono T T' m :
  (T <= T')%Z -> ordered_upto T m = true -> ordered_upto T' m = true.
Proof.
  intros HT. unfold ordered_upto. induction (history m) as [|[k h] hs IH]; simpl; [reflexivity|].
  intros H. apply andb_true_iff in H as [H1 H2]. apply andb_true_iff in H1 as [H1a H1b].
  rewrite H1a, (forallb_le_mono T T' h HT H1b), IH by exact H2. reflexivity.
Qed.

Lemma save_ordered T t tok pr m :
  (T <= t)%Z -> ordered_upto T m = true -> ordered_upto t (saveTokenPrice t tok pr m) = true.
Proof.
  intros HT H. unfold saveTokenPrice. unfold ordered_upto; simpl.
  apply (map_set_forall (ordered_pred t)).
  - apply (ordered_upto_mono T t m HT H).
  - pose proof (get_history_ordered T m (prop tok "poolAddress") H) as Hg.
    unfold ordered_pred in *. apply andb_true_iff in Hg as [Hg1 Hg2].
    rewrite push_front_24_firstn. apply andb_true_iff; split.
    + apply newest_first_firstn.
      destruct (get_history m (prop tok "poolAddress")) as [|b l] eqn:E; [reflexivity|].
      simpl in Hg2. apply andb_true_iff in Hg2 as [Hb _]. apply Z.leb_le in Hb.
      rewrite newest_first_cons2, Hg1. simpl. replace (Z.leb (h_updated_at b) t) with true by (symmetry; apply Z.leb_le; lia).
      reflexivity.
    + apply forallb_firstn. simpl. rewrite Z.leb_refl. simpl.
      exact (forallb_le_mono T t _ HT Hg2).
Qed.

End History.

(** Case split on the first [Z.ltb] test of the goal. *)
Ltac ltb_cases :=
  match goal with
  | |- context [Z.ltb ?a ?b] => destruct (Z.ltb_spec a b)
  end.

(** ** Sample inputs *)

Module Samples.

Definition tok1 : jsval :=
  JObj [("address", JStr "A1"); ("poolAddress", JStr "P1");
        ("ticker", JStr "TK1"); ("name", JStr "Token one")].

Definition tok2 : jsval :=
  JObj [("address", JStr "A2"); ("poolAddress", JStr "P2");
        ("ticker", JStr "TK2"); ("name", JStr "Token two")].

Definition pr1 : jsval :=
  JObj [("price", JNum (3 # 2)); ("marketCap", JNum 1000); ("liquidity", JNum 250);
        ("volume24h", JNum 40); ("dexId", JStr "dex")].

Definition pr2 : jsval :=
  JObj [("price", JNum 2); ("marketCap", JNum 900); ("liquidity", JNum 100);
        ("volume24h", JNum 5); ("dexId", JStr "dex")].


Definition db_up : Remote.db := Remote.mkDb true true [] [].

End Samples.

Import Samples.

Example memory_fresh_read :
  Memory.getTokenPrice 15000 (JStr "P1") (Memory.saveTokenPrice 10000 tok1 pr1 Memory.empty)
  = Some pr1.
Proof. reflexivity. Qed.

Example memory_stale_read :
  Memory.getTokenPrice 41000 (JStr "P1") (Memory.saveTokenPrice 10000 tok1 pr1 Memory.empty)
  = None.
Proof. reflexivity. Qed.

(** *** C3 *)

(** C3: a stored price record whose timestamp is more than 30 s before
    the read is reported absent by both the local and the remote read
    path; a record saved at [t0] is returned with the saved fields at
    [t0 + 10 s] and absent at [t0 + 31 s], on both paths. *)
Theorem getTokenPrice_freshness_window :
  (forall now pool m d,
      map_get (Memory.prices m) pool = Some d ->
      (Memory.e_updated_at d < now - 30 * 1000)%Z ->
      Memory.getTokenPrice now pool m = None)
  /\ (forall now pool db r,
      Remote.latest_row (Remote.rows db) pool = Some r ->
      (Remote.r_updated_at r < now - 30 * 1000)%Z ->
      Remote.getTokenPrice now pool db = None)
  /\ (forall t0 tok pr m,
      is_object (prop tok "poolAddress") = false ->
      Memory.getTokenPrice (t0 + 10000) (prop tok "poolAddress")
        (Memory.saveTokenPrice t0 tok pr m) = Some pr
      /\ Memory.getTokenPrice (t0 + 31000) (prop tok "poolAddress")
        (Memory.saveTokenPrice t0 tok pr m) = None)
  /\ (forall t0 tok pr db,
      is_object (prop tok "poolAddress") = false ->
      Remote.reachable db = true ->
      (exists o, Remote.getTokenPrice (t0 + 10000) (prop tok "poolAddress")
                   (Remote.saveTokenPrice t0 tok pr db) = Some o
                 /\ Forall (fun f => prop o f = prop pr f)
                      ["price"; "marketCap"; "liquidity"; "volume24h"; "dexId"])
      /\ Remote.getTokenPrice (t0 + 31000) (prop tok "poolAddress")
           (Remote.saveTokenPrice t0 tok pr db) = None).
Proof.
  split; [|split; [|split]].
  - intros now pool m d Hg Hlt. unfold Memory.getTokenPrice. rewrite Hg.
    ltb_cases; [reflexivity | lia].
  - intros now pool db r Hg Hlt. unfold Remote.getTokenPrice.
    destruct (Remote.reachable db); [|reflexivity]. cbn [negb]. rewrite Hg.
    ltb_cases; [reflexivity | lia].
  - intros t0 tok pr m Hk. apply key_eqb_refl in Hk.
    unfold Memory.getTokenPrice, Memory.saveTokenPrice; simpl.
    rewrite map_get_set_same by exact Hk. simpl. split; ltb_cases; solve [lia | reflexivity].
  - intros t0 tok pr db Hk Hr. apply key_eqb_refl in Hk.
    unfold Remote.getTokenPrice, Remote.saveTokenPrice. rewrite Hr. simpl.
    rewrite Hk. split; ltb_cases; cbn [Remote.r_updated_at] in *; try lia.
    + eexists; split; [reflexivity|]. repeat constructor.
    + reflexivity.
Qed.

Lemma getTokenPrice_freshness_window_witness :
  Memory.getTokenPrice 41000 (JStr "P1") (Memory.saveTokenPrice 10000 tok1 pr1 Memory.empty) = None
  /\ Memory.getTokenPrice 20000 (JStr "P1") (Memory.saveTokenPrice 10000 tok1 pr1 Memory.empty) = Some pr1
  /\ Remote.getTokenPrice 41000 (JStr "P1") (Remote.saveTokenPrice 10000 tok1 pr1 db_up) = None.
Proof.
  destruct getTokenPrice_freshness_window as [Hm [Hr [Hs Hrs]]].
  split; [|split].
  - apply (Hm 41000%Z (JStr "P1") _ (Memory.mkEntry tok1 pr1 10000)); reflexivity.
  - exact (proj1 (Hs 10000%Z tok1 pr1 Memory.empty eq_refl)).
  - exact (proj2 (Hrs 10000%Z tok1 pr1 db_up eq_refl eq_refl)).
Defined.

(** *** C4 *)

Lemma run_saves_hist_ok calls m :
  History.hist_ok m = true -> History.hist_ok (History.run_saves calls m) = true.
Proof.
  unfold History.run_saves. revert m.
  induction calls as [|[[t tok] pr] cs IH]; intros m H; simpl; [exact H|].
  apply IH, History.save_hist_ok, H.
Qed.

Lemma run_saves_ordered calls m T :
  History.ordered_upto T m = true -> History.times_from T calls = true ->
  exists T', History.ordered_upto T' (History.run_saves calls m) = true.
Proof.
  unfold History.run_saves. revert m T.
  induction calls as [|[[t tok] pr] cs IH]; intros m T H Ht; simpl in *.
  - exists T. exact H.
  - apply andb_true_iff in Ht as [Ht1 Ht2]. apply Z.leb_le in Ht1.
    apply (IH _ t); [apply History.save_ordered with (T := T); assumption | exact Ht2].
Qed.

(** C4: on the local store, each [saveTokenPrice] puts the new entry at
    the front of the pool's history series and truncates it to 24
    entries; after any sequence of saves every series has at most 24
    entries, and when the saves come in clock order every series is
    newest first. *)
Theorem local_history_bounded_newest_first :
  (forall t tok pr m,
      is_object (prop tok "poolAddress") = false ->
      Memory.get_history (Memory.saveTokenPrice t tok pr m) (prop tok "poolAddress")
      = firstn 24 (Memory.mkHist (prop pr "price") t
                     :: Memory.get_history m (prop tok "poolAddress")))
  /\ (forall calls m,
      History.hist_ok m = true ->
      History.hist_ok (History.run_saves calls m) = true)
  /\ (forall calls m T,
      History.hist_ok m = true ->
      History.ordered_upto T m = true ->
      History.times_from T calls = true ->
      forall pool,
        History.newest_first (Memory.get_history (History.run_saves calls m) pool) = true
        /\ History.bounded (Memory.get_history (History.run_saves calls m) pool) = true).
Proof.
  split; [|split].
  - intros t tok pr m Hk. apply key_eqb_refl in Hk.
    unfold Memory.get_history at 1. unfold Memory.saveTokenPrice; simpl.
    rewrite map_get_set_same by exact Hk. apply History.push_front_24_firstn.
  - exact run_saves_hist_ok.
  - intros calls m T Hl Ho Ht pool.
    destruct (run_saves_ordered calls m T Ho Ht) as [T' HT'].
    pose proof (History.get_history_ordered T' _ pool HT') as Hp.
    unfold History.ordered_pred in Hp. apply andb_true_iff in Hp as [Hp _].
    split; [exact Hp|].
    assert (Hb : History.hist_ok (History.run_saves calls m) = true).
    { apply run_saves_hist_ok, Hl. }
    unfold Memory.get_history. destruct (map_get _ pool) eqn:E; [|reflexivity].
    exact (map_get_forall History.bounded _ _ _ Hb E).
Qed.

Lemma local_history_bounded_newest_first_witness :
  History.newest_first (Memory.get_history
    (History.run_saves [(10%Z, tok1, pr1); (20%Z, tok1, pr2); (30%Z, tok2, pr1)] Memory.empty)
    (JStr "P1")) = true
  /\ History.hist_ok (History.run_saves [(10%Z, tok1, pr1)] Memory.empty) = true
  /\ Memory.get_history (Memory.saveTokenPrice 10 tok1 pr1 Memory.empty) (JStr "P1")
     = firstn 24 [Memory.mkHist (JNum (3 # 2)) 10].
Proof.
  destruct local_history_bounded_newest_first as [H1 [H2 H3]].
  split; [|split].
  - exact (proj1 (H3 [(10%Z, tok1, pr1); (20%Z, tok1, pr2); (30%Z, tok2, pr1)]
                      Memory.empty 0%Z eq_refl eq_refl eq_refl (JStr "P1"))).
  - exact (H2 _ Memory.empty eq_refl).
  - exact (H1 10%Z tok1 pr1 Memory.empty eq_refl).
Defined.

(** ** Update queue *)

Module QueueFacts.
Import Queue.
Local Open Scope nat_scope.

(** Every pending item's retry count is within the budget. *)
Definition retries_ok (q : pqueue) : bool :=
  forallb (fun it => Nat.leb (retries it) (maxRetries q)) (queue q).

Lemma handleFailedItem_retries_ok now it msg q :
  retries_ok q = true -> retries it <= maxRetries q ->
  retries_ok (handleFailedItem now it msg q) = true.
Proof.
  unfold retries_ok, handleFailedItem; simpl. intros Hq Hit.
  destruct (Nat.ltb_spec (retries it) (maxRetries q)); simpl.
  - rewrite forallb_app, Hq. simpl.
    destruct (maxRetries q) as [|m']; [lia|].
    rewrite ?andb_true_r. apply Nat.leb_le. lia.
  - exact Hq.
Qed.

Lemma drain_retries_ok e fuel k q :
  retries_ok q = true -> retries_ok (drain e fuel k q) = true.
Proof.
  revert k q. induction fuel as [|fuel IH]; intros k q Hq; simpl; [exact Hq|].
  destruct (queue q) as [|it rest] eqn:Eq; [exact Hq|].
  unfold retries_ok in Hq. rewrite Eq in Hq. simpl in Hq.
  apply andb_true_iff in Hq as [Hit Hrest]. apply Nat.leb_le in Hit.
  destruct (Z.ltb (processingTimeout q) (clock e k - start e)).
  - unfold retries_ok. simpl. rewrite Eq. simpl. rewrite Hrest.
    apply andb_true_iff; split; [apply Nat.leb_le; exact Hit | reflexivity].
  - destruct (outcome e k it) as [msg|]; apply IH.
    + apply handleFailedItem_retries_ok; [exact Hrest | exact Hit].
    + exact Hrest.
Qed.

Lemma processQueue_retries_ok e q :
  retries_ok q = true -> retries_ok (processQueue e q) = true.
Proof.
  intros H. unfold processQueue. destruct (processing q); [exact H|].
  apply (drain_retries_ok e (budget q) 0 (set_processing q true)) in H.
  exact H.
Qed.

Lemma enqueue_retries_ok now i d q q' :
  retries_ok q = true -> enqueue now i d q = Storage.Ok q' -> retries_ok q' = true.
Proof.
  unfold enqueue. intros H.
  destruct (Nat.leb (maxQueueSize q) (List.length (queue q))); [discriminate|].
  destruct (negb (validateData d)); [discriminate|].
  intros E. injection E as <-. unfold retries_ok in *; simpl.
  rewrite forallb_app, H. reflexivity.
Qed.

(** One item alone in the queue, whose handlers keep failing, with the
    drain's clock inside its session budget: it is taken
    [maxRetries - retries + 1] more times and ends in the failure log. *)
Lemma drain_single_failing e n : forall fuel k q it,
  queue q = [it] ->
  maxRetries q - retries it = n ->
  retries it <= maxRetries q ->
  S n <= fuel ->
  (forall j x, outcome e j x <> None) ->
  (forall j, k <= j <= k + n -> (clock e j - start e <= processingTimeout q)%Z) ->
  let q' := drain e fuel k q in
  queue q' = [] /\ maxRetries q' = maxRetries q /\ processing q' = processing q
  /\ retried (stats q') = retried (stats q) + n
  /\ failed (stats q') = failed (stats q) + S n
  /\ exists it_f msg,
       Sync.sget (failedItems q') (id it) = Some (mkFailed it_f msg (fail_time e (k + n)))
       /\ id it_f = id it /\ data it_f = data it /\ addedAt it_f = addedAt it
       /\ retries it_f = maxRetries q /\ outcome e (k + n) it_f = Some msg.
Proof.
  induction n as [|n IH]; intros fuel k q it Hq Hn Hle Hf Hfail Hclk;
    destruct fuel as [|fuel]; try lia; simpl; rewrite Hq.
  - assert (Hc : Z.ltb (processingTimeout q) (clock e k - start e) = false).
    { apply Z.ltb_ge. apply Hclk. lia. }
    rewrite Hc.
    destruct (outcome e k it) as [msg|] eqn:Ho; [|exfalso; exact (Hfail k it Ho)].
    unfold handleFailedItem; simpl.
    replace (Nat.ltb (retries it) (maxRetries q)) with false
      by (symmetry; apply Nat.ltb_ge; lia).
    destruct fuel; simpl; (split; [reflexivity|]);
      (split; [reflexivity|]); (split; [reflexivity|]); (split; [lia|]);
      (split; [lia|]); exists it, msg; rewrite Nat.add_0_r;
      (split; [apply sget_sset_same|]); repeat split; try reflexivity; try lia; exact Ho.
  - assert (Hc : Z.ltb (processingTimeout q) (clock e k - start e) = false).
    { apply Z.ltb_ge. apply Hclk. lia. }
    rewrite Hc.
    destruct (outcome e k it) as [msg|] eqn:Ho; [|exfalso; exact (Hfail k it Ho)].
    set (it' := mkItem (id it) (data it) (addedAt it) (S (retries it)) (Some msg)).
    set (q2 := handleFailedItem (fail_time e k) it msg (set_queue q [])).
    assert (Hq2 : queue q2 = [it']).
    { subst q2 it'. unfold handleFailedItem; simpl.
      replace (Nat.ltb (retries it) (maxRetries q)) with true
        by (symmetry; apply Nat.ltb_lt; lia). reflexivity. }
    assert (Hm2 : maxRetries q2 = maxRetries q).
    { subst q2. unfold handleFailedItem; simpl.
      destruct (Nat.ltb (retries it) (maxRetries q)); reflexivity. }
    assert (Hs2 : retried (stats q2) = S (retried (stats q))
                  /\ failed (stats q2) = S (failed (stats q))
                  /\ processing q2 = processing q
                  /\ failedItems q2 = failedItems q).
    { subst q2. unfold handleFailedItem; simpl.
      replace (Nat.ltb (retries it) (maxRetries q)) with true
        by (symmetry; apply Nat.ltb_lt; lia). repeat split; reflexivity. }
    destruct Hs2 as [Hr2 [Hf2 [Hp2 Hfi2]]].
    assert (Hn2 : maxRetries q2 - retries it' = n) by (rewrite Hm2; subst it'; simpl; lia).
    assert (Hle2 : retries it' <= maxRetries q2) by (rewrite Hm2; subst it'; simpl; lia).
    assert (Hf2' : S n <= fuel) by lia.
    assert (Hclk2 : forall j, S k <= j <= S k + n ->
                     (clock e j - start e <= processingTimeout q2)%Z).
    { intros j Hj. assert (Hpt : processingTimeout q2 = processingTimeout q).
      { subst q2. unfold handleFailedItem; simpl.
        destruct (Nat.ltb (retries it) (maxRetries q)); reflexivity. }
      rewrite Hpt. apply Hclk. lia. }
    destruct (IH fuel (S k) q2 it' Hq2 Hn2 Hle2 Hf2' Hfail Hclk2)
      as [H1 [H2 [H3 [H4 [H5 [it_f [msg' H6]]]]]]].
    fold q2. rewrite H1, H2, H3, H4, H5, Hm2, Hr2, Hf2, Hp2.
    split; [reflexivity|]. split; [reflexivity|]. split; [reflexivity|].
    split; [lia|]. split; [lia|].
    destruct H6 as [H6a [H6b [H6c [H6d [H6e H6f]]]]].
    exists it_f, msg'.
    replace (k + S n) with (S k + n) by lia.
    rewrite Hm2 in H6e. subst it'; simpl in *.
    repeat split; assumption.
Qed.

End QueueFacts.

Module QueueSamples.
Import Queue.

(** A drain in which every handler rejects, within the session budget. *)
Definition env_failing : env :=
  mkEnv 0 (fun _ => 0%Z) (fun _ _ => Some "1 handlers failed") (fun k => Z.of_nat k).

Definition item1 : item := mkItem "i1" (JObj [("pool", JStr "P1")]) 0 0 None.

Definition q_one : pqueue := set_queue priceQueue [item1].

(** [priceQueue] holding 1000 pending items. *)
Definition q_full : pqueue := set_queue priceQueue (repeat item1 1000).

End QueueSamples.

Import QueueSamples.

(** *** C5 *)

(** C5: [add] on a queue whose pending count has reached [maxQueueSize]
    (1000 for the exported queue and by default) throws the queue-full
    error and leaves the queue as it was (it returns no new state, and
    does not reach the drain); below the ceiling a valid payload is
    pushed at the tail of the queue. *)
Theorem add_queue_full_rejects :
  Queue.maxQueueSize Queue.priceQueue = 1000%nat
  /\ (forall o, Queue.opt_maxQueueSize o = None ->
        Queue.maxQueueSize (Queue.create o) = 1000%nat)
  /\ (forall e now i d q,
        (Queue.maxQueueSize q <= List.length (Queue.queue q))%nat ->
        Queue.enqueue now i d q = Storage.Throw Storage.QueueFull
        /\ Queue.add e now i d q = Storage.Throw Storage.QueueFull)
  /\ (forall now i d q,
        (List.length (Queue.queue q) < Queue.maxQueueSize q)%nat ->
        Queue.validateData d = true ->
        Queue.enqueue now i d q
        = Storage.Ok (Queue.set_queue q (app (Queue.queue q) [Queue.mkItem i d now 0 None]))).
Proof.
  split; [reflexivity|]. split; [intros o Ho; unfold Queue.create; rewrite Ho; reflexivity|].
  split.
  - intros e now i d q H. unfold Queue.add, Queue.enqueue.
    apply Nat.leb_le in H. rewrite H. split; reflexivity.
  - intros now i d q H Hv. unfold Queue.enqueue.
    replace (Nat.leb (Queue.maxQueueSize q) (List.length (Queue.queue q))) with false
      by (symmetry; apply Nat.leb_gt; exact H).
    rewrite Hv. reflexivity.
Qed.

Lemma add_queue_full_rejects_witness :
  Queue.add env_failing 5 "i2" (JObj []) q_full = Storage.Throw Storage.QueueFull
  /\ Queue.enqueue 5 "i2" (JObj []) q_one
     = Storage.Ok (Queue.set_queue q_one [item1; Queue.mkItem "i2" (JObj []) 5 0 None]).
Proof.
  destruct add_queue_full_rejects as [_ [_ [Hfull Hok]]]. split.
  - exact (proj2 (Hfull env_failing 5%Z "i2" (JObj []) q_full (Nat.le_refl _))).
  - apply (Hok 5%Z "i2" (JObj []) q_one); [apply Nat.ltb_lt; reflexivity | reflexivity].
Defined.

(** *** C6 *)

(** C6: a failed item with retries left is pushed back at the tail with
    its retry count increased by one; a failed item whose count has
    reached [maxRetries] is not pushed back and is recorded in the
    failure log under its id with the final error and the failure time;
    no pending item's count ever exceeds [maxRetries]; and an item added
    alone whose handlers always fail (rejection or timeout) within the
    drain budget is retried exactly [maxRetries] times, then sits in the
    failure log with count [maxRetries] and is gone from the queue. *)
Theorem failing_item_retried_then_logged :
  (forall now it msg q,
      (Queue.retries it < Queue.maxRetries q)%nat ->
      Queue.queue (Queue.handleFailedItem now it msg q)
      = app (Queue.queue q) [Queue.mkItem (Queue.id it) (Queue.data it) (Queue.addedAt it)
                                          (S (Queue.retries it)) (Some msg)]
      /\ Queue.failedItems (Queue.handleFailedItem now it msg q) = Queue.failedItems q)
  /\ (forall now it msg q,
      Queue.retries it = Queue.maxRetries q ->
      Queue.queue (Queue.handleFailedItem now it msg q) = Queue.queue q
      /\ Sync.sget (Queue.failedItems (Queue.handleFailedItem now it msg q)) (Queue.id it)
         = Some (Queue.mkFailed it msg now))
  /\ (forall e q, QueueFacts.retries_ok q = true ->
      QueueFacts.retries_ok (Queue.processQueue e q) = true)
  /\ (forall now i d q q', QueueFacts.retries_ok q = true ->
      Queue.enqueue now i d q = Storage.Ok q' -> QueueFacts.retries_ok q' = true)
  /\ (forall e q it,
      Queue.processing q = false ->
      Queue.queue q = [it] ->
      Queue.retries it = 0%nat ->
      (forall k x, Queue.outcome e k x <> None) ->
      (forall k, (k <= Queue.maxRetries q)%nat ->
         (Queue.clock e k - Queue.start e <= Queue.processingTimeout q)%Z) ->
      let q' := Queue.processQueue e q in
      Queue.queue q' = []
      /\ Queue.retried (Queue.stats q') = (Queue.retried (Queue.stats q) + Queue.maxRetries q)%nat
      /\ exists it_f msg,
           Sync.sget (Queue.failedItems q') (Queue.id it)
           = Some (Queue.mkFailed it_f msg (Queue.fail_time e (Queue.maxRetries q)))
           /\ Queue.id it_f = Queue.id it /\ Queue.data it_f = Queue.data it
           /\ Queue.retries it_f = Queue.maxRetries q
           /\ Queue.outcome e (Queue.maxRetries q) it_f = Some msg).
Proof.
  split; [|split; [|split; [|split]]].
  - intros now it msg q H. unfold Queue.handleFailedItem; simpl.
    apply Nat.ltb_lt in H. rewrite H. split; reflexivity.
  - intros now it msg q H. unfold Queue.handleFailedItem; simpl.
    replace (Nat.ltb (Queue.retries it) (Queue.maxRetries q)) with false
      by (symmetry; apply Nat.ltb_ge; lia).
    split; [reflexivity | apply sget_sset_same].
  - exact QueueFacts.processQueue_retries_ok.
  - exact QueueFacts.enqueue_retries_ok.
  - intros e q it Hp Hq Hr Hfail Hclk q'. subst q'.
    unfold Queue.processQueue. rewrite Hp.
    assert (Hb : Queue.budget q = S (Queue.maxRetries q)).
    { unfold Queue.budget. rewrite Hq. simpl. rewrite Hr. lia. }
    rewrite Hb.
    destruct (QueueFacts.drain_single_failing e (Queue.maxRetries q) (S (Queue.maxRetries q))
                0 (Queue.set_processing q true) it)
      as [H1 [H2 [H3 [H4 [H5 [it_f [msg [H6 [H7 [H8 [_ [H9 H10]]]]]]]]]]]].
    + exact Hq.
    + simpl. rewrite Hr. lia.
    + simpl. lia.
    + lia.
    + exact Hfail.
    + intros j Hj. simpl. apply Hclk. lia.
    + cbn [Queue.set_processing Queue.queue Queue.stats Queue.failedItems
           Queue.maxRetries] in *.
      split; [exact H1|]. split; [rewrite H4; reflexivity|].
      exists it_f, msg. rewrite H6.
      repeat split; assumption.
Qed.

Lemma failing_item_retried_then_logged_witness :
  Queue.queue (Queue.processQueue env_failing q_one) = []
  /\ Queue.retried (Queue.stats (Queue.processQueue env_failing q_one)) = 3%nat.
Proof.
  destruct failing_item_retried_then_logged as [_ [_ [_ [_ H]]]].
  destruct (H env_failing q_one item1 eq_refl eq_refl eq_refl) as [H1 [H2 _]].
  - intros k x. discriminate.
  - intros k _. simpl. lia.
  - split; [exact H1 | exact H2].
Defined.

(** *** C10 *)

Lemma existsb_filter_out (ty : string) (l : list string) :
  existsb (String.eqb ty) (filter (fun k => negb (String.eqb ty k)) l) = false.
Proof.
  induction l as [|k l IH]; [reflexivity|]. simpl.
  destruct (String.eqb ty k) eqn:E; simpl; [exact IH | rewrite E; exact IH].
Qed.

(** C10: a [processQueue] run that starts with the queue idle ends with
    [processing] false, whatever the handlers did (the [finally]); a
    [processSyncQueue] that finds its type's lock free ends with that lock
    released, whatever the buffered operations did (an operation that
    throws is skipped, the [finally] releases the lock). *)
Theorem reentrancy_guards_released :
  (forall e q, Queue.processing q = false ->
      Queue.processing (Queue.processQueue e q) = false)
  /\ (forall (Op W : Type) (exec : Z -> Op -> W -> W * bool) now ty ss w,
      lock_held ty ss = false ->
      lock_held ty (fst (processSyncQueue exec now ty (ss, w))) = false).
Proof.
  split.
  - intros e q H. unfold Queue.processQueue. rewrite H. reflexivity.
  - intros Op W exec now ty ss w H.
    unfold processSyncQueue, flush_begin, acquireLock. rewrite H. simpl.
    unfold lock_held, flush_end, releaseLock; simpl.
    rewrite String.eqb_refl. apply existsb_filter_out.
Qed.

Lemma reentrancy_guards_released_witness :
  Queue.processing (Queue.processQueue env_failing q_one) = false
  /\ lock_held "price"
       (fst (processSyncQueue Storage.exec_op 0 "price"
               (mkSync [] [("price", [Storage.OpMemSavePrice tok1 pr1])] [],
                Storage.mkStores Memory.empty db_up))) = false.
Proof.
  destruct reentrancy_guards_released as [H1 H2]. split.
  - exact (H1 env_failing q_one eq_refl).
  - exact (H2 _ _ Storage.exec_op 0%Z "price"
             (mkSync [] [("price", [Storage.OpMemSavePrice tok1 pr1])] [])
             (Storage.mkStores Memory.empty db_up) eq_refl).
Defined.

(** ** Facade *)

Module FacadeSamples.

(** Remote store whose credentials failed the startup check. *)
Definition db_unavailable : Remote.db := Remote.mkDb false false [] [].

Definition f_up : Storage.facade := Storage.init Memory.empty db_up.

Definition f_noremote : Storage.facade := Storage.init Memory.empty db_unavailable.

End FacadeSamples.

Import FacadeSamples.

(** *** C7 *)

(** C7: when the remote store's availability check reports unavailable,
    [setStorageMode(true)] returns without changing anything, so the mode
    flag keeps its value; repeating the call changes nothing either. *)
Theorem setStorageMode_remote_refused :
  forall f, Storage.isSupabaseAvailable f = false ->
    Storage.setStorageMode true f = f
    /\ Storage.useSupabase (Storage.setStorageMode true f) = Storage.useSupabase f
    /\ Storage.setStorageMode true (Storage.setStorageMode true f) = f.
Proof.
  intros f H. unfold Storage.setStorageMode. rewrite H. simpl.
  rewrite H. repeat split.
Qed.

Lemma setStorageMode_remote_refused_witness :
  Storage.useSupabase
    (Storage.setStorageMode true (Storage.setStorageMode false f_noremote)) = false.
Proof.
  destruct (setStorageMode_remote_refused (Storage.setStorageMode false f_noremote) eq_refl)
    as [_ [H _]].
  rewrite H. reflexivity.
Defined.

(** *** C2 *)

(** C2: [setStorageMode] changes only the mode flag; [this.storage], the
    object every delegated read ([getTokenPrice], [getPriceHistory],
    [getStats], [clearHistory]) goes to, is the remote store from the
    constructor on.  After switching to local mode, a price the local
    store holds fresh is not returned: the read still goes to the remote
    store. *)
Theorem delegate_ignores_storage_mode :
  (forall b f, Storage.storage (Storage.setStorageMode b f) = Storage.storage f)
  /\ (forall m d, Storage.storage (Storage.init m d) = Storage.SupabaseStore)
  /\ (let m1 := Memory.saveTokenPrice 10000 tok1 pr1 Memory.empty in
      let f := Storage.setStorageMode false (Storage.init m1 db_up) in
      Storage.useSupabase f = false
      /\ Memory.getTokenPrice 15000 (JStr "P1") m1 = Some pr1
      /\ Storage.getTokenPrice 15000 (JStr "P1") f = None).
Proof.
  split; [|split].
  - intros b f. unfold Storage.setStorageMode.
    destruct (b && negb (Storage.isSupabaseAvailable f)); reflexivity.
  - reflexivity.
  - repeat split; reflexivity.
Qed.

(** *** C8 *)

(** The shape the validation accepts, in the spec's vocabulary. *)
Definition nonempty_string (v : jsval) : Prop := exists s, v = JStr s /\ s <> "".

Definition nonzero_number (v : jsval) : Prop := exists q, v = JNum q /\ ~ (q == 0)%Q.

Definition token_shape (tok : jsval) : Prop :=
  nonempty_string (prop tok "address") /\ nonempty_string (prop tok "poolAddress")
  /\ nonempty_string (prop tok "ticker").

Definition price_shape (pr : jsval) : Prop :=
  nonzero_number (prop pr "price") /\ nonzero_number (prop pr "marketCap")
  /\ nonzero_number (prop pr "liquidity").

Definition config_shape (key value : jsval) : Prop :=
  nonempty_string key /\ value <> JUndef.

Lemma str_check_iff v : truthy v && typeof_string v = true <-> nonempty_string v.
Proof.
  unfold nonempty_string. destruct v; simpl; rewrite ?andb_false_r; split;
    try discriminate; try (intros [s' [H _]]; discriminate).
  - intros H. exists s. split; [reflexivity|].
    rewrite andb_true_r in H. apply negb_true_iff, String.eqb_neq in H. exact H.
  - intros [s' [H Hn]]. injection H as <-. rewrite andb_true_r.
    apply negb_true_iff, String.eqb_neq. exact Hn.
Qed.

Lemma num_check_iff v : truthy v && typeof_number v = true <-> nonzero_number v.
Proof.
  unfold nonzero_number. destruct v; simpl; rewrite ?andb_false_r; split;
    try discriminate; try (intros [q' [H _]]; discriminate).
  - intros H. exists q. split; [reflexivity|].
    rewrite andb_true_r in H. apply negb_true_iff in H.
    intros Hq. apply Qeq_bool_iff in Hq. congruence.
  - intros [q' [H Hn]]. injection H as <-. rewrite andb_true_r.
    apply negb_true_iff. destruct (Qeq_bool q 0) eqn:E; [|reflexivity].
    apply Qeq_bool_iff in E. contradiction.
Qed.

Lemma obj_of_string_prop v k : nonempty_string (prop v k) -> truthy v = true.
Proof.
  destruct v; simpl; try reflexivity; intros [s0 [H _]]; discriminate.
Qed.

Lemma obj_of_number_prop v k : nonzero_number (prop v k) -> truthy v = true.
Proof.
  destruct v; simpl; try reflexivity; intros [q0 [H _]]; discriminate.
Qed.

Lemma validate_token_iff tok :
  Storage.validateData tok "token" = true <-> token_shape tok.
Proof.
  unfold Storage.validateData, token_shape. simpl.
  rewrite <- !str_check_iff.
  destruct (truthy tok) eqn:Et; simpl.
  - rewrite !andb_true_iff. tauto.
  - split; [discriminate|]. intros [H _]. apply str_check_iff, obj_of_string_prop in H.
    congruence.
Qed.

Lemma validate_price_iff pr :
  Storage.validateData pr "price" = true <-> price_shape pr.
Proof.
  unfold Storage.validateData, price_shape. simpl.
  rewrite <- !num_check_iff.
  destruct (truthy pr) eqn:Et; simpl.
  - rewrite !andb_true_iff. tauto.
  - split; [discriminate|]. intros [H _]. apply num_check_iff, obj_of_number_prop in H.
    congruence.
Qed.

Lemma not_undef_iff v : negb (is_undefined v) = true <-> v <> JUndef.
Proof.
  destruct v; simpl; split; intros H;
    solve [reflexivity | discriminate | exfalso; apply H; reflexivity].
Qed.

Lemma validate_config_iff key value :
  Storage.validateData (JObj [("key", key); ("value", value)]) "config" = true
  <-> config_shape key value.
Proof.
  unfold Storage.validateData, config_shape. simpl.
  rewrite andb_true_iff, str_check_iff, not_undef_iff. tauto.
Qed.




(** ** Synchronization buckets *)

Module SyncFacts.

Section Facts.
Variables Op W : Type.
Variable exec : Z -> Op -> W -> W * bool.

Lemma processSyncQueue_locked now ty ss w :
  lock_held ty ss = true -> processSyncQueue exec now ty (ss, w) = (ss, w).
Proof.
  intros H. unfold processSyncQueue, flush_begin, acquireLock. rewrite H. reflexivity.
Qed.

Lemma push_op_lock ty ty' o (ss : sync_state Op) :
  lock_held ty' (push_op ty o ss) = lock_held ty' ss.
Proof. reflexivity. Qed.

Lemma push_op_last_sync ty ty' o (ss : sync_state Op) :
  last_sync_time ty' (push_op ty o ss) = last_sync_time ty' ss.
Proof. reflexivity. Qed.

Lemma bucket_push_op ty o (ss : sync_state Op) :
  bucket ty (push_op ty o ss) = app (bucket ty ss) [o].
Proof. unfold bucket at 1, push_op; simpl. rewrite sget_sset_same. reflexivity. Qed.

Lemma queueSync_locked now ty o ss w :
  lock_held ty ss = true ->
  queueSync exec now ty o (ss, w) = (push_op ty o ss, w).
Proof.
  intros H. unfold queueSync.
  destruct (Z.ltb syncInterval (now - last_sync_time ty (push_op ty o ss))).
  - apply processSyncQueue_locked. rewrite push_op_lock. exact H.
  - reflexivity.
Qed.

Lemma flush_begin_free now ty (ss : sync_state Op) :
  lock_held ty ss = false ->
  exists ss1, flush_begin now ty ss = Some (bucket ty ss, ss1)
    /\ bucket ty ss1 = [] /\ lock_held ty ss1 = true /\ last_sync_time ty ss1 = now.
Proof.
  intros H. unfold flush_begin, acquireLock. rewrite H.
  eexists; split; [reflexivity|]. unfold bucket, lock_held, last_sync_time; simpl.
  rewrite !sget_sset_same, String.eqb_refl. repeat split.
Qed.

Lemma flush_end_spec ty (ss : sync_state Op) :
  bucket ty (flush_end ty ss) = bucket ty ss
  /\ lock_held ty (flush_end ty ss) = false
  /\ last_sync_time ty (flush_end ty ss) = last_sync_time ty ss.
Proof.
  split; [reflexivity|]. split; [|reflexivity].
  unfold lock_held, flush_end, releaseLock; simpl. apply existsb_filter_out.
Qed.

(** [queueSync] either leaves the operation buffered, or flushes the
    whole bucket, new operation last, at once. *)
Lemma queueSync_free_due now ty o ss w :
  lock_held ty ss = false ->
  Z.lt syncInterval (now - last_sync_time ty ss) ->
  exists ss', queueSync exec now ty o (ss, w)
              = (ss', run_ops exec now (app (bucket ty ss) [o]) w)
    /\ bucket ty ss' = [] /\ lock_held ty ss' = false.
Proof.
  intros Hl Ht. unfold queueSync. rewrite push_op_last_sync.
  apply Z.ltb_lt in Ht. rewrite Ht.
  destruct (flush_begin_free now ty (push_op ty o ss)) as [ss1 [Hb [He [_ _]]]];
    [rewrite push_op_lock; exact Hl|].
  unfold processSyncQueue. rewrite Hb, bucket_push_op.
  exists (flush_end ty ss1). split; [reflexivity|].
  destruct (flush_end_spec ty ss1) as [H1 [H2 _]]. rewrite H1. split; assumption.
Qed.

Lemma queueSync_not_due now ty o ss w :
  Z.le (now - last_sync_time ty ss) syncInterval ->
  queueSync exec now ty o (ss, w) = (push_op ty o ss, w).
Proof.
  intros Ht. unfold queueSync. rewrite push_op_last_sync.
  replace (Z.ltb syncInterval (now - last_sync_time ty ss)) with false
    by (symmetry; apply Z.ltb_ge; exact Ht).
  reflexivity.
Qed.

Lemma queueSync_cases now ty o ss w :
  queueSync exec now ty o (ss, w) = (push_op ty o ss, w)
  \/ exists ss', queueSync exec now ty o (ss, w)
                 = (ss', run_ops exec now (app (bucket ty ss) [o]) w)
                 /\ bucket ty ss' = [].
Proof.
  destruct (Z.le_gt_cases (now - last_sync_time ty ss) syncInterval) as [Ht|Ht].
  - left. apply queueSync_not_due, Ht.
  - destruct (lock_held ty ss) eqn:Hl.
    + left. apply queueSync_locked, Hl.
    + right. destruct (queueSync_free_due now ty o ss w Hl) as [ss' [H1 [H2 _]]];
        [lia|]. exists ss'. split; assumption.
Qed.

End Facts.

End SyncFacts.

(** *** C9 *)

(** The spec's test of the price bucket: with [a] buffered, a flush
    starts at [t1] and takes the lock; while it runs, [queueSync(b)] is
    called at [t2]; the flush then runs what it took and releases the
    lock.  Yields the bucket state and the stores afterwards. *)
Definition flush_with_enqueue_during (t1 t2 : Z) (ty : string) (b : Storage.sync_op)
    (ss : sync_state Storage.sync_op) (w : Storage.stores)
    : option (sync_state Storage.sync_op * Storage.stores) :=
  match flush_begin t1 ty ss with
  | None => None
  | Some (ops, ss1) =>
      let (ss2, w2) := queueSync Storage.exec_op t2 ty b (ss1, w) in
      Some (flush_end ty ss2, run_ops Storage.exec_op t1 ops w2)
  end.

(** The code at the counterexample: A (a price for P1) is buffered, the
    flush starts at 10 s, B (a price for P2) is queued at 10.5 s; after
    the lock is released A's effect is in the local store, B's is not,
    and B is still waiting in the bucket. *)
Lemma enqueue_during_flush_not_applied :
  match flush_with_enqueue_during 10000 10500 "price" (Storage.OpMemSavePrice tok2 pr2)
          (mkSync [] [("price", [Storage.OpMemSavePrice tok1 pr1])] [])
          (Storage.mkStores Memory.empty db_up) with
  | Some (ss3, w3) =>
      Memory.getTokenPrice 11000 (JStr "P1") (Storage.mem_s w3) = Some pr1
      /\ Memory.getTokenPrice 11000 (JStr "P2") (Storage.mem_s w3) = None
      /\ bucket "price" ss3 = [Storage.OpMemSavePrice tok2 pr2]
      /\ lock_held "price" ss3 = false
  | None => False
  end.
Proof. vm_compute. repeat split. Qed.

(** C9 (as the code has it): a flush of a type whose lock is held does
    nothing; a flush that gets the lock takes the whole bucket, empties
    it and runs every operation in order; an operation queued while that
    flush holds the lock is appended to the bucket and not run by it, so
    after the lock is released it is still in the bucket; the next flush
    of the type runs it, after what was queued before it, and that flush
    happens in the first later [queueSync] of the type that comes more
    than [syncInterval] after the previous flush started, and only there
    (an earlier one just appends). *)
Theorem sync_enqueue_during_flush_kept :
  (forall Op W (exec : Z -> Op -> W -> W * bool) now ty ss w,
      lock_held ty ss = true -> processSyncQueue exec now ty (ss, w) = (ss, w))
  /\ (forall Op W (exec : Z -> Op -> W -> W * bool) (ty : string) (b c : Op) ss w t1 t2 t3,
      lock_held ty ss = false ->
      exists ss1,
        flush_begin t1 ty ss = Some (bucket ty ss, ss1)
        /\ bucket ty ss1 = []
        /\ queueSync exec t2 ty b (ss1, w) = (push_op ty b ss1, w)
        /\ bucket ty (flush_end ty (push_op ty b ss1)) = [b]
        /\ lock_held ty (flush_end ty (push_op ty b ss1)) = false
        /\ (Z.lt syncInterval (t3 - t1) ->
            exists ss4,
              queueSync exec t3 ty c (flush_end ty (push_op ty b ss1),
                                      run_ops exec t1 (bucket ty ss) w)
              = (ss4, run_ops exec t3 [b; c] (run_ops exec t1 (bucket ty ss) w))
              /\ bucket ty ss4 = [])
        /\ (Z.le (t3 - t1) syncInterval ->
            queueSync exec t3 ty c (flush_end ty (push_op ty b ss1),
                                    run_ops exec t1 (bucket ty ss) w)
            = (push_op ty c (flush_end ty (push_op ty b ss1)),
               run_ops exec t1 (bucket ty ss) w))).
Proof.
  split.
  - intros Op W exec now ty ss w H. apply SyncFacts.processSyncQueue_locked, H.
  - intros Op W exec ty b c ss w t1 t2 t3 Hl.
    destruct (SyncFacts.flush_begin_free Op t1 ty ss Hl) as [ss1 [Hb [He [Hh Ht]]]].
    exists ss1.
    destruct (SyncFacts.flush_end_spec Op ty (push_op ty b ss1)) as [E1 [E2 E3]].
    assert (Hbk : bucket ty (flush_end ty (push_op ty b ss1)) = [b]).
    { rewrite E1, SyncFacts.bucket_push_op, He. reflexivity. }
    assert (Hls : last_sync_time ty (flush_end ty (push_op ty b ss1)) = t1).
    { rewrite E3, SyncFacts.push_op_last_sync. exact Ht. }
    split; [exact Hb|]. split; [exact He|].
    split; [apply SyncFacts.queueSync_locked, Hh|].
    split; [exact Hbk|]. split; [exact E2|]. split.
    + intros Hlt.
      destruct (SyncFacts.queueSync_free_due Op W exec t3 ty c
                  (flush_end ty (push_op ty b ss1)) (run_ops exec t1 (bucket ty ss) w) E2)
        as [ss4 [H1 [H2 _]]]; [rewrite Hls; exact Hlt|].
      exists ss4. rewrite H1, Hbk. split; [reflexivity | exact H2].
    + intros Hle. apply SyncFacts.queueSync_not_due. rewrite Hls. exact Hle.
Qed.

Lemma sync_enqueue_during_flush_kept_witness :
  exists ss1,
    flush_begin 10000 "price" (mkSync [] [("price", [Storage.OpMemSavePrice tok1 pr1])] [])
    = Some ([Storage.OpMemSavePrice tok1 pr1], ss1)
    /\ bucket "price" (flush_end "price"
                        (push_op "price" (Storage.OpMemSavePrice tok2 pr2) ss1))
       = [Storage.OpMemSavePrice tok2 pr2].
Proof.
  destruct sync_enqueue_during_flush_kept as [_ H].
  destruct (H _ _ Storage.exec_op "price" (Storage.OpMemSavePrice tok2 pr2)
              (Storage.OpMemSavePrice tok2 pr2)
              (mkSync [] [("price", [Storage.OpMemSavePrice tok1 pr1])] [])
              (Storage.mkStores Memory.empty db_up) 10000%Z 10500%Z 20000%Z eq_refl)
    as [ss1 [H1 [_ [_ [H4 _]]]]].
  exists ss1. split; [exact H1 | exact H4].
Defined.

(** *** C1 *)

(** Reduce the facade's record plumbing without unfolding the calls. *)
Ltac facade_simpl :=
  cbn [negb orb fst snd Storage.useSupabase Storage.with_stores Storage.with_sync
       Storage.sync Storage.st Storage.storage Storage.mem_s Storage.remote_s].

(** The code at the counterexample: in remote mode, a first
    [updateConfig] at 10 s flushes the config bucket; a second one at
    11 s leaves its remote write buffered, so when the call resolves the
    remote store still holds the first value while the local store holds
    the second. *)
Lemma updateConfig_remote_write_deferred :
  match Storage.updateConfig 10000 (JStr "sort_criteria") (JStr "mc") f_up with
  | Storage.Ok f1 =>
      match Storage.updateConfig 11000 (JStr "sort_criteria") (JStr "vol") f1 with
      | Storage.Ok f2 =>
          Storage.useSupabase f2 = true
          /\ map_get (Remote.bot_config (Storage.remote_s (Storage.st f2))) (JStr "sort_criteria")
             = Some (Remote.CfgToString (JStr "mc"))
          /\ map_get (Memory.config (Storage.mem_s (Storage.st f2))) (JStr "sort_criteria")
             = Some (JStr "vol")
      | Storage.Throw _ => False
      end
  | Storage.Throw _ => False
  end.
Proof. vm_compute. repeat split. Qed.

(** C1 (as the code has it): in remote mode [saveTokenPrice] writes the
    remote store (the store [this.storage] designates) before returning
    and hands a local-store write to the "price" bucket; [updateConfig]
    always writes the local store before returning and, in remote mode,
    hands a remote-store write to the "config" bucket.  Handing over
    appends the write to the bucket; when the bucket's lock is free and
    more than [syncInterval] (5 s) has passed since its last flush, the
    whole bucket is flushed within the same call (every buffered write in
    order, the new one last) and the lock is released again; when the
    lock is held or the interval has not passed, the write stays in the
    bucket and no store is touched by the bucket.  In local mode neither
    call touches the buckets. *)
Theorem writes_authoritative_then_bucket :
  (forall now tok pr f,
      Storage.storage f = Storage.SupabaseStore ->
      Storage.useSupabase f = true ->
      token_shape tok -> price_shape pr ->
      let w1 := Storage.mkStores (Storage.mem_s (Storage.st f))
                  (Remote.saveTokenPrice now tok pr (Storage.remote_s (Storage.st f))) in
      let o := Storage.OpMemSavePrice tok pr in
      exists f', Storage.saveTokenPrice now tok pr f = Storage.Ok f'
        /\ Storage.useSupabase f' = true /\ Storage.storage f' = Storage.storage f
        /\ (lock_held "price" (Storage.sync f) = false ->
            Z.lt syncInterval (now - last_sync_time "price" (Storage.sync f)) ->
            Storage.st f' = run_ops Storage.exec_op now
                              (app (bucket "price" (Storage.sync f)) [o]) w1
            /\ bucket "price" (Storage.sync f') = []
            /\ lock_held "price" (Storage.sync f') = false)
        /\ (lock_held "price" (Storage.sync f) = true
            \/ Z.le (now - last_sync_time "price" (Storage.sync f)) syncInterval ->
            Storage.sync f' = push_op "price" o (Storage.sync f) /\ Storage.st f' = w1))
  /\ (forall now tok pr f,
      Storage.useSupabase f = false ->
      token_shape tok -> price_shape pr ->
      exists f', Storage.saveTokenPrice now tok pr f = Storage.Ok f'
        /\ Storage.sync f' = Storage.sync f)
  /\ (forall now key value f,
      Storage.useSupabase f = true ->
      config_shape key value ->
      let w1 := Storage.mkStores (Memory.updateConfig key value (Storage.mem_s (Storage.st f)))
                  (Storage.remote_s (Storage.st f)) in
      let o := Storage.OpRemoteUpdateConfig key value in
      exists f', Storage.updateConfig now key value f = Storage.Ok f'
        /\ Storage.useSupabase f' = true
        /\ (lock_held "config" (Storage.sync f) = false ->
            Z.lt syncInterval (now - last_sync_time "config" (Storage.sync f)) ->
            Storage.st f' = run_ops Storage.exec_op now
                              (app (bucket "config" (Storage.sync f)) [o]) w1
            /\ bucket "config" (Storage.sync f') = []
            /\ lock_held "config" (Storage.sync f') = false)
        /\ (lock_held "config" (Storage.sync f) = true
            \/ Z.le (now - last_sync_time "config" (Storage.sync f)) syncInterval ->
            Storage.sync f' = push_op "config" o (Storage.sync f) /\ Storage.st f' = w1))
  /\ (forall now key value f,
      Storage.useSupabase f = false ->
      config_shape key value ->
      exists f', Storage.updateConfig now key value f = Storage.Ok f'
        /\ Storage.sync f' = Storage.sync f
        /\ Storage.st f' = Storage.mkStores
                             (Memory.updateConfig key value (Storage.mem_s (Storage.st f)))
                             (Storage.remote_s (Storage.st f))).
Proof.
  split; [|split; [|split]].
  - intros now tok pr f Hs Hu Ht Hp w1 o.
    apply validate_token_iff in Ht. apply validate_price_iff in Hp.
    unfold Storage.saveTokenPrice. rewrite Ht, Hp. facade_simpl.
    rewrite Hu, Hs. cbn [Storage.storage_save]. fold w1 o.
    eexists; (split; [reflexivity|]); facade_simpl;
      rewrite Hs; (split; [exact Hu|]); (split; [reflexivity|]). split.
    + intros Hl Hd.
      pose proof (SyncFacts.queueSync_free_due _ _ Storage.exec_op now "price" o
                    (Storage.sync f) w1 Hl Hd) as Hq.
      destruct Hq as [ss' [H [Hb Hl']]]. rewrite H. facade_simpl.
      split; [reflexivity|]. split; assumption.
    + intros [Hl | Hd].
      * rewrite (SyncFacts.queueSync_locked _ _ Storage.exec_op now "price" o
                   (Storage.sync f) w1 Hl).
        split; reflexivity.
      * rewrite (SyncFacts.queueSync_not_due _ _ Storage.exec_op now "price" o
                   (Storage.sync f) w1 Hd).
        split; reflexivity.
  - intros now tok pr f Hu Ht Hp.
    apply validate_token_iff in Ht. apply validate_price_iff in Hp.
    unfold Storage.saveTokenPrice. rewrite Ht, Hp. facade_simpl. rewrite Hu.
    eexists; split; reflexivity.
  - intros now key value f Hu Hc w1 o.
    apply validate_config_iff in Hc.
    unfold Storage.updateConfig. rewrite Hc. facade_simpl. rewrite Hu. fold w1 o.
    eexists; (split; [reflexivity|]); facade_simpl; (split; [exact Hu|]). split.
    + intros Hl Hd.
      pose proof (SyncFacts.queueSync_free_due _ _ Storage.exec_op now "config" o
                    (Storage.sync f) w1 Hl Hd) as Hq.
      destruct Hq as [ss' [H [Hb Hl']]]. rewrite H. facade_simpl.
      split; [reflexivity|]. split; assumption.
    + intros [Hl | Hd].
      * rewrite (SyncFacts.queueSync_locked _ _ Storage.exec_op now "config" o
                   (Storage.sync f) w1 Hl).
        split; reflexivity.
      * rewrite (SyncFacts.queueSync_not_due _ _ Storage.exec_op now "config" o
                   (Storage.sync f) w1 Hd).
        split; reflexivity.
  - intros now key value f Hu Hc.
    apply validate_config_iff in Hc.
    unfold Storage.updateConfig. rewrite Hc. facade_simpl. rewrite Hu.
    eexists; split; [reflexivity|]. split; reflexivity.
Qed.

Lemma writes_authoritative_then_bucket_witness :
  (exists f', Storage.saveTokenPrice 20000 tok1 pr1 f_up = Storage.Ok f'
              /\ Storage.useSupabase f' = true
              /\ bucket "price" (Storage.sync f') = [])
  /\ (exists f', Storage.updateConfig 20000 (JStr "sort_criteria") (JStr "mc")
                   (Storage.setStorageMode false f_up) = Storage.Ok f'
                 /\ Storage.sync f' = Storage.sync f_up).
Proof.
  destruct writes_authoritative_then_bucket as [H1 [_ [_ H4]]]. split.
  - assert (Ht : token_shape tok1) by (apply validate_token_iff; reflexivity).
    assert (Hp : price_shape pr1) by (apply validate_price_iff; reflexivity).
    pose proof (H1 20000%Z tok1 pr1 f_up eq_refl eq_refl Ht Hp) as Hx.
    destruct Hx as [f' [Hf' [Hu [_ [Hflush _]]]]].
    assert (Hd : Z.lt syncInterval (20000 - last_sync_time "price" (Storage.sync f_up)))
      by reflexivity.
    destruct (Hflush eq_refl Hd) as [_ [Hb _]].
    exists f'. split; [exact Hf'|]. split; assumption.
  - destruct (H4 20000%Z (JStr "sort_criteria") (JStr "mc") (Storage.setStorageMode false f_up)
                eq_refl) as [f' [Hf' [Hs _]]].
    + apply validate_config_iff; reflexivity.
    + exists f'. split; assumption.
Defined.

(* ================================================================== *)
(** * Further properties of the stores, the queue and the buckets *)

(** ** SameValueZero is an equivalence on the keys that can match *)

Lemma Qeq_bool_sym x y : Qeq_bool x y = Qeq_bool y x.
Proof.
  destruct (Qeq_bool x y) eqn:E1, (Qeq_bool y x) eqn:E2; try reflexivity.
  - apply Qeq_bool_iff, Qeq_sym, Qeq_bool_iff in E1. congruence.
  - apply Qeq_bool_iff, Qeq_sym, Qeq_bool_iff in E2. congruence.
Qed.

Lemma key_eqb_sym a b : key_eqb a b = key_eqb b a.
Proof.
  destruct a as [| |x|x| |x|x], b as [| |y|y| |y|y]; simpl; try reflexivity.
  - destruct x, y; reflexivity.
  - apply Qeq_bool_sym.
  - apply String.eqb_sym.
Qed.

Lemma key_eqb_trans a b c : key_eqb a b = true -> key_eqb c a = key_eqb c b.
Proof.
  destruct a as [| |x|x| |x|x], b as [| |y|y| |y|y]; simpl; intros H; try discriminate;
    destruct c as [| |z|z| |z|z]; simpl; try reflexivity.
  - apply Bool.eqb_prop in H. subst. reflexivity.
  - apply Qeq_bool_iff in H.
    destruct (Qeq_bool z x) eqn:E1, (Qeq_bool z y) eqn:E2; try reflexivity; exfalso.
    + apply Qeq_bool_iff in E1. apply Qeq_bool_neq in E2.
      exact (E2 (Qeq_trans _ _ _ E1 H)).
    + apply Qeq_bool_iff in E2. apply Qeq_bool_neq in E1.
      exact (E1 (Qeq_trans _ _ _ E2 (Qeq_sym _ _ H))).
  - apply String.eqb_eq in H. subst. reflexivity.
Qed.

Lemma map_get_set_other {V} (m : list (jsval * V)) k k' v :
  key_eqb k' k = false -> map_get (map_set m k v) k' = map_get m k'.
Proof.
  intros H. induction m as [|[k0 v0] m IH]; simpl.
  - rewrite H. reflexivity.
  - destruct (key_eqb k k0) eqn:E; simpl.
    + rewrite <- (key_eqb_trans k k0 k' E), H. reflexivity.
    + destruct (key_eqb k' k0); [reflexivity | exact IH].
Qed.

Lemma map_get_delete_other {V} (m : list (jsval * V)) k k' :
  key_eqb k' k = false -> map_get (map_delete m k) k' = map_get m k'.
Proof.
  intros H. induction m as [|[k0 v0] m IH]; simpl; [reflexivity|].
  destruct (key_eqb k k0) eqn:E; simpl.
  - rewrite <- (key_eqb_trans k k0 k' E), H. reflexivity.
  - destruct (key_eqb k' k0); [reflexivity | exact IH].
Qed.

(** A [Map] holds each key once. *)
Fixpoint keys_distinct {V} (m : list (jsval * V)) : bool :=
  match m with
  | [] => true
  | (k, _) :: m' => negb (existsb (fun kv => key_eqb k (fst kv)) m') && keys_distinct m'
  end.

Lemma map_get_absent {V} (m : list (jsval * V)) k k0 :
  existsb (fun kv => key_eqb k0 (fst kv)) m = false -> key_eqb k k0 = true ->
  map_get m k = None.
Proof.
  induction m as [|[k1 v1] m IH]; simpl; intros Hm Hk; [reflexivity|].
  apply orb_false_iff in Hm as [H1 H2].
  rewrite (key_eqb_sym k k1), (key_eqb_trans k k0 k1 Hk), (key_eqb_sym k1 k0), H1.
  exact (IH H2 Hk).
Qed.

Lemma map_get_delete_same {V} (m : list (jsval * V)) k :
  keys_distinct m = true -> map_get (map_delete m k) k = None.
Proof.
  induction m as [|[k0 v0] m IH]; simpl; intros H; [reflexivity|].
  apply andb_true_iff in H as [H1 H2]. apply negb_true_iff in H1.
  destruct (key_eqb k k0) eqn:E.
  - exact (map_get_absent m k k0 H1 E).
  - simpl. rewrite E. exact (IH H2).
Qed.

Lemma existsb_map_set {V} (m : list (jsval * V)) k v c :
  existsb (fun kv => key_eqb c (fst kv)) (map_set m k v)
  = existsb (fun kv => key_eqb c (fst kv)) m || key_eqb c k.
Proof.
  induction m as [|[k0 v0] m IH]; simpl.
  - rewrite orb_false_r. reflexivity.
  - destruct (key_eqb k k0) eqn:E; simpl.
    + rewrite (key_eqb_trans k k0 c E).
      destruct (key_eqb c k0); simpl; rewrite ?orb_false_r; reflexivity.
    + rewrite IH, orb_assoc. reflexivity.
Qed.

Lemma keys_distinct_set {V} (m : list (jsval * V)) k v :
  keys_distinct m = true -> keys_distinct (map_set m k v) = true.
Proof.
  induction m as [|[k0 v0] m IH]; simpl; intros H; [reflexivity|].
  apply andb_true_iff in H as [H1 H2].
  destruct (key_eqb k k0) eqn:E; simpl.
  - rewrite H1, H2. reflexivity.
  - rewrite existsb_map_set, (key_eqb_sym k0 k), E, orb_false_r, H1. simpl.
    exact (IH H2).
Qed.

Lemma existsb_delete {V} (p : jsval * V -> bool) (m : list (jsval * V)) k :
  existsb p (map_delete m k) = true -> existsb p m = true.
Proof.
  induction m as [|[k0 v0] m IH]; simpl; intros H; [exact H|].
  destruct (key_eqb k k0); simpl in H.
  - rewrite H. apply orb_true_r.
  - apply orb_true_iff in H as [H|H]; apply orb_true_iff; [left; exact H | right; exact (IH H)].
Qed.

Lemma keys_distinct_delete {V} (m : list (jsval * V)) k :
  keys_distinct m = true -> keys_distinct (map_delete m k) = true.
Proof.
  induction m as [|[k0 v0] m IH]; simpl; intros H; [reflexivity|].
  apply andb_true_iff in H as [H1 H2].
  destruct (key_eqb k k0); [exact H2|]. simpl.
  apply andb_true_iff. split; [|exact (IH H2)].
  apply negb_true_iff. apply negb_true_iff in H1.
  destruct (existsb (fun kv => key_eqb k0 (fst kv)) (map_delete m k)) eqn:E; [|reflexivity].
  apply existsb_delete in E. congruence.
Qed.

(** ** Local store *)

(** X1: [saveTokenPrice] for one pool leaves the price record and the
    history of every other pool, and the config, as they were. *)
Theorem memory_save_other_pool_untouched now t tok pr m pool :
  key_eqb pool (prop tok "poolAddress") = false ->
  Memory.getTokenPrice t pool (Memory.saveTokenPrice now tok pr m) = Memory.getTokenPrice t pool m
  /\ Memory.getPriceHistory pool (Memory.saveTokenPrice now tok pr m)
     = Memory.getPriceHistory pool m
  /\ Memory.config (Memory.saveTokenPrice now tok pr m) = Memory.config m.
Proof.
  intros H.
  unfold Memory.getTokenPrice, Memory.getPriceHistory, Memory.get_history,
    Memory.saveTokenPrice.
  cbn [Memory.prices Memory.history Memory.config].
  rewrite !map_get_set_other by exact H. repeat split.
Qed.

Lemma memory_save_other_pool_untouched_witness :
  Memory.getTokenPrice 20000 (JStr "P2") (Memory.saveTokenPrice 10000 tok1 pr1 Memory.empty)
  = Memory.getTokenPrice 20000 (JStr "P2") Memory.empty.
Proof.
  exact (proj1 (memory_save_other_pool_untouched 10000 20000 tok1 pr1 Memory.empty
                  (JStr "P2") eq_refl)).
Defined.

(** X2: the history map keeps each pool once through [saveTokenPrice]
    and [clearHistory]; on such a map, [clearHistory(pool)] empties the
    pool's history, leaves the other pools' histories alone, and does not
    touch the pool's current price record. *)
Theorem memory_clearHistory_spec now t tok pr m pool pool' :
  keys_distinct (Memory.history m) = true ->
  keys_distinct (Memory.history (Memory.saveTokenPrice now tok pr m)) = true
  /\ keys_distinct (Memory.history (Memory.clearHistory pool m)) = true
  /\ Memory.getPriceHistory pool (Memory.clearHistory pool m) = []
  /\ (key_eqb pool' pool = false ->
      Memory.getPriceHistory pool' (Memory.clearHistory pool m) = Memory.getPriceHistory pool' m)
  /\ Memory.getTokenPrice t pool (Memory.clearHistory pool m) = Memory.getTokenPrice t pool m.
Proof.
  intros H.
  split; [apply keys_distinct_set, H|].
  split; [apply keys_distinct_delete, H|].
  unfold Memory.getPriceHistory, Memory.get_history, Memory.clearHistory.
  cbn [Memory.prices Memory.history].
  split; [rewrite map_get_delete_same by exact H; reflexivity|].
  split; [intros H'; rewrite map_get_delete_other by exact H'; reflexivity|].
  reflexivity.
Qed.

Lemma memory_clearHistory_spec_witness :
  Memory.getPriceHistory (JStr "P1")
    (Memory.clearHistory (JStr "P1") (Memory.saveTokenPrice 10000 tok1 pr1 Memory.empty)) = []
  /\ Memory.getTokenPrice 20000 (JStr "P1")
       (Memory.clearHistory (JStr "P1") (Memory.saveTokenPrice 10000 tok1 pr1 Memory.empty))
     = Some pr1.
Proof.
  destruct (memory_clearHistory_spec 10000 20000 tok1 pr1
              (Memory.saveTokenPrice 10000 tok1 pr1 Memory.empty) (JStr "P1") (JStr "P2")
              eq_refl) as [_ [_ [H3 [_ H5]]]].
  split; [exact H3 | rewrite H5; reflexivity].
Defined.

(** X3: [getConfig] after [updateConfig(key, value)] returns
    [{ key, value }] when [value] is truthy and [null] otherwise (a stored
    [0], [''] or [false] reads back as [null]); other keys are not
    affected. *)
Theorem memory_config_roundtrip key key' value m :
  is_object key = false ->
  Memory.getConfig key (Memory.updateConfig key value m)
    = (if truthy value then Some (JObj [("key", key); ("value", value)]) else None)
  /\ (key_eqb key' key = false ->
      Memory.getConfig key' (Memory.updateConfig key value m) = Memory.getConfig key' m).
Proof.
  intros Hk. unfold Memory.getConfig, Memory.updateConfig. cbn [Memory.config]. split.
  - rewrite map_get_set_same by (apply key_eqb_refl; exact Hk). reflexivity.
  - intros H. rewrite map_get_set_other by exact H. reflexivity.
Qed.

Lemma memory_config_roundtrip_witness :
  Memory.getConfig (JStr "sort_criteria")
    (Memory.updateConfig (JStr "sort_criteria") (JStr "") Memory.empty) = None.
Proof.
  exact (proj1 (memory_config_roundtrip (JStr "sort_criteria") (JStr "update_interval")
                  (JStr "") Memory.empty eq_refl)).
Defined.

(** ** Remote store *)

Lemma latest_row_filter_same rs pool :
  Remote.latest_row (filter (fun r => negb (key_eqb (Remote.r_pool_address r) pool)) rs) pool
  = None.
Proof.
  induction rs as [|r rs IH]; simpl; [reflexivity|].
  destruct (key_eqb (Remote.r_pool_address r) pool) eqn:E; simpl; [exact IH|].
  rewrite E. exact IH.
Qed.

Lemma rows_of_filter_same rs pool :
  Remote.rows_of (filter (fun r => negb (key_eqb (Remote.r_pool_address r) pool)) rs) pool
  = [].
Proof.
  induction rs as [|r rs IH]; simpl; [reflexivity|].
  destruct (key_eqb (Remote.r_pool_address r) pool) eqn:E; simpl; [exact IH|].
  rewrite E. exact IH.
Qed.

Lemma key_eqb_other_pool a pool pool' :
  key_eqb a pool = true -> key_eqb pool' pool = false -> key_eqb a pool' = false.
Proof.
  intros E H. rewrite key_eqb_sym, (key_eqb_trans _ _ pool' E). exact H.
Qed.

Lemma latest_row_filter_other rs pool pool' :
  key_eqb pool' pool = false ->
  Remote.latest_row (filter (fun r => negb (key_eqb (Remote.r_pool_address r) pool)) rs) pool'
  = Remote.latest_row rs pool'.
Proof.
  intros H. induction rs as [|r rs IH]; simpl; [reflexivity|].
  destruct (key_eqb (Remote.r_pool_address r) pool) eqn:E; simpl.
  - rewrite (key_eqb_other_pool _ _ _ E H). exact IH.
  - destruct (key_eqb (Remote.r_pool_address r) pool'); [reflexivity | exact IH].
Qed.

Lemma rows_of_filter_other rs pool pool' :
  key_eqb pool' pool = false ->
  Remote.rows_of (filter (fun r => negb (key_eqb (Remote.r_pool_address r) pool)) rs) pool'
  = Remote.rows_of rs pool'.
Proof.
  intros H. induction rs as [|r rs IH]; simpl; [reflexivity|].
  destruct (key_eqb (Remote.r_pool_address r) pool) eqn:E; simpl.
  - rewrite (key_eqb_other_pool _ _ _ E H). exact IH.
  - destruct (key_eqb (Remote.r_pool_address r) pool'); [rewrite IH; reflexivity | exact IH].
Qed.

(** X4: once the remote [clearHistory(pool)] has gone through, the pool
    has neither a current price nor a history in the remote store, while
    every other pool reads as before. *)
Theorem remote_clearHistory_spec now pool pool' n d :
  Remote.reachable d = true ->
  Remote.getTokenPrice now pool (Remote.clearHistory pool d) = None
  /\ Remote.getPriceHistory pool n (Remote.clearHistory pool d) = []
  /\ (key_eqb pool' pool = false ->
      Remote.getTokenPrice now pool' (Remote.clearHistory pool d)
      = Remote.getTokenPrice now pool' d
      /\ Remote.getPriceHistory pool' n (Remote.clearHistory pool d)
         = Remote.getPriceHistory pool' n d).
Proof.
  intros Hr. unfold Remote.getTokenPrice, Remote.getPriceHistory, Remote.clearHistory.
  rewrite Hr. cbn [Remote.reachable Remote.rows negb].
  split; [rewrite latest_row_filter_same; reflexivity|].
  split; [rewrite rows_of_filter_same, firstn_nil; reflexivity|].
  intros H. rewrite latest_row_filter_other, rows_of_filter_other by exact H.
  split; reflexivity.
Qed.

Lemma remote_clearHistory_spec_witness :
  Remote.getTokenPrice 10000 (JStr "P1")
    (Remote.clearHistory (JStr "P1") (Remote.saveTokenPrice 10000 tok1 pr1 db_up)) = None.
Proof.
  exact (proj1 (remote_clearHistory_spec 10000 (JStr "P1") (JStr "P2") 24
                  (Remote.saveTokenPrice 10000 tok1 pr1 db_up) eq_refl)).
Defined.

(** X5: the remote history holds at most [limit] entries, newest first:
    after a remote save for the pool, the history with one more slot is
    the saved price at the front of the previous history. *)
Theorem remote_history_newest_first_bounded now tok pr pool n d :
  (List.length (Remote.getPriceHistory pool n d) <= n)%nat
  /\ (Remote.reachable d = true -> key_eqb (prop tok "poolAddress") pool = true ->
      Remote.getPriceHistory pool (S n) (Remote.saveTokenPrice now tok pr d)
      = (prop pr "price", now) :: Remote.getPriceHistory pool n d).
Proof.
  split.
  - unfold Remote.getPriceHistory. destruct (Remote.reachable d); simpl; [|lia].
    rewrite length_map. apply firstn_le_length.
  - intros Hr Hp. unfold Remote.getPriceHistory, Remote.saveTokenPrice.
    rewrite Hr. cbn [Remote.reachable Remote.rows].
    cbn [Remote.rows_of Remote.r_pool_address]. rewrite Hp. reflexivity.
Qed.

Lemma remote_history_newest_first_bounded_witness :
  Remote.getPriceHistory (JStr "P1") 2
    (Remote.saveTokenPrice 20000 tok1 pr2 (Remote.saveTokenPrice 10000 tok1 pr1 db_up))
  = [(JNum 2, 20000%Z); (JNum (3 # 2), 10000%Z)].
Proof.
  rewrite (proj2 (remote_history_newest_first_bounded 20000 tok1 pr2 (JStr "P1") 1
                    (Remote.saveTokenPrice 10000 tok1 pr1 db_up)) eq_refl eq_refl).
  reflexivity.
Defined.

(** X6: the remote [updateConfig] refuses [null] and [undefined] values
    ([value.toString()] throws) and fails on an unreachable store, leaving
    the store as it was; otherwise it stores [value.toString()] under the
    key, which [getConfig] then returns, and touches nothing else. *)
Theorem remote_config_write_read key key' value d :
  (value = JNull \/ value = JUndef -> Remote.updateConfig key value d = (d, false))
  /\ (Remote.reachable d = false ->
      Remote.updateConfig key value d = (d, false) /\ Remote.getConfig key d = None)
  /\ (Remote.reachable d = true -> value <> JNull -> value <> JUndef ->
      is_object key = false ->
      snd (Remote.updateConfig key value d) = true
      /\ Remote.getConfig key (fst (Remote.updateConfig key value d))
         = Some (Remote.CfgToString value)
      /\ (key_eqb key' key = false ->
          Remote.getConfig key' (fst (Remote.updateConfig key value d))
          = Remote.getConfig key' d)
      /\ Remote.rows (fst (Remote.updateConfig key value d)) = Remote.rows d).
Proof.
  split; [|split].
  - intros [-> | ->]; reflexivity.
  - intros H. unfold Remote.updateConfig, Remote.getConfig. rewrite H.
    destruct value; split; reflexivity.
  - intros Hr H1 H2 Hk. unfold Remote.updateConfig, Remote.getConfig.
    destruct value; try (exfalso; congruence); rewrite Hr;
      cbn [fst snd Remote.reachable Remote.bot_config Remote.rows];
      (split; [reflexivity|]);
      (split; [apply map_get_set_same, key_eqb_refl, Hk|]);
      (split; [intros H; apply map_get_set_other, H | reflexivity]).
Qed.

Lemma remote_config_write_read_witness :
  Remote.updateConfig (JStr "sort_criteria") JNull db_up = (db_up, false)
  /\ Remote.getConfig (JStr "sort_criteria")
       (fst (Remote.updateConfig (JStr "sort_criteria") (JStr "vol") db_up))
     = Some (Remote.CfgToString (JStr "vol")).
Proof.
  destruct (remote_config_write_read (JStr "sort_criteria") (JStr "x") JNull db_up)
    as [H1 _].
  destruct (remote_config_write_read (JStr "sort_criteria") (JStr "x") (JStr "vol") db_up)
    as [_ [_ H3]].
  split; [exact (H1 (or_introl eq_refl))|].
  destruct (H3 eq_refl ltac:(discriminate) ltac:(discriminate) eq_refl) as [_ [H _]].
  exact H.
Defined.

(** ** PriceQueue: the drain loop, validation and the failure log *)

Module QueueDrain.
Import Queue.
Local Open Scope nat_scope.

(** The iteration budget of a list of pending items. *)
Fixpoint blist (M : nat) (l : list item) : nat :=
  match l with
  | [] => 0
  | it :: l' => S (M - retries it) + blist M l'
  end.

Lemma fold_blist M l :
  fold_right (fun it n => S (M - retries it) + n) 0 l = blist M l.
Proof. induction l as [|it l IH]; [reflexivity|]. cbn [fold_right blist]. rewrite IH. reflexivity. Qed.

Lemma budget_blist q : budget q = blist (maxRetries q) (queue q).
Proof. exact (fold_blist (maxRetries q) (queue q)). Qed.

Lemma blist_app M l1 l2 : blist M (app l1 l2) = blist M l1 + blist M l2.
Proof. induction l1 as [|it l1 IH]; simpl; [reflexivity|]. rewrite IH. lia. Qed.

Lemma handleFailedItem_fields now it msg q :
  maxRetries (handleFailedItem now it msg q) = maxRetries q
  /\ processingTimeout (handleFailedItem now it msg q) = processingTimeout q
  /\ timeouts (stats (handleFailedItem now it msg q)) = timeouts (stats q)
  /\ processed (stats (handleFailedItem now it msg q)) = processed (stats q).
Proof.
  unfold handleFailedItem; simpl.
  destruct (Nat.ltb (retries it) (maxRetries q)); repeat split.
Qed.

Lemma handleFailedItem_budget now it msg q :
  blist (maxRetries q) (queue (handleFailedItem now it msg q))
  < S (maxRetries q - retries it) + blist (maxRetries q) (queue q).
Proof.
  unfold handleFailedItem; simpl.
  destruct (Nat.ltb_spec (retries it) (maxRetries q)); simpl.
  - rewrite blist_app. simpl. lia.
  - lia.
Qed.

(** One turn of the [while] loop, by its outcome. *)
Lemma drain_nil e fuel k q : queue q = [] -> drain e fuel k q = q.
Proof. intros H. destruct fuel; cbn [drain]; [reflexivity|]. rewrite H. reflexivity. Qed.

Lemma drain_timeout e fuel k q it rest :
  queue q = it :: rest -> Z.ltb (processingTimeout q) (clock e k - start e) = true ->
  drain e (S fuel) k q = set_stats q (bump_timeouts (stats q)).
Proof. intros H1 H2. cbn [drain]. rewrite H1, H2. reflexivity. Qed.

Lemma drain_ok e fuel k q it rest :
  queue q = it :: rest -> Z.ltb (processingTimeout q) (clock e k - start e) = false ->
  outcome e k it = None ->
  drain e (S fuel) k q
  = drain e fuel (S k) (set_stats (set_queue q rest) (bump_processed (stats (set_queue q rest)))).
Proof. intros H1 H2 H3. cbn [drain]. rewrite H1, H2, H3. reflexivity. Qed.

Lemma drain_fail e fuel k q it rest msg :
  queue q = it :: rest -> Z.ltb (processingTimeout q) (clock e k - start e) = false ->
  outcome e k it = Some msg ->
  drain e (S fuel) k q
  = drain e fuel (S k) (handleFailedItem (fail_time e k) it msg (set_queue q rest)).
Proof. intros H1 H2 H3. cbn [drain]. rewrite H1, H2, H3. reflexivity. Qed.

(** With its budget as fuel the loop always runs to its end: the queue
    empties, or the session timeout breaks it. *)
Lemma drain_ends e : forall fuel k q,
  budget q <= fuel ->
  (queue (drain e fuel k q) = [] /\ timeouts (stats (drain e fuel k q)) = timeouts (stats q))
  \/ (queue (drain e fuel k q) <> []
      /\ timeouts (stats (drain e fuel k q)) = S (timeouts (stats q))).
Proof.
  induction fuel as [|fuel IH]; intros k q Hb.
  - left. rewrite budget_blist in Hb.
    destruct (queue q) as [|it rest] eqn:Eq; [|simpl in Hb; lia].
    rewrite drain_nil by exact Eq. split; [exact Eq | reflexivity].
  - destruct (queue q) as [|it rest] eqn:Eq.
    { left. rewrite drain_nil by exact Eq. split; [exact Eq | reflexivity]. }
    rewrite budget_blist, Eq in Hb. simpl in Hb.
    destruct (Z.ltb (processingTimeout q) (clock e k - start e)) eqn:Et.
    { right. rewrite (drain_timeout e fuel k q it rest Eq Et). simpl.
      rewrite Eq. split; [discriminate | reflexivity]. }
    destruct (outcome e k it) as [msg|] eqn:Eo.
    + rewrite (drain_fail e fuel k q it rest msg Eq Et Eo).
      pose proof (handleFailedItem_fields (fail_time e k) it msg (set_queue q rest))
        as [Hm [_ [Ht _]]].
      pose proof (handleFailedItem_budget (fail_time e k) it msg (set_queue q rest)) as Hh.
      destruct (IH (S k) (handleFailedItem (fail_time e k) it msg (set_queue q rest)))
        as [[H1 H2]|[H1 H2]].
      * rewrite budget_blist, Hm. simpl in Hh |- *. lia.
      * left. split; [exact H1|]. rewrite H2, Ht. reflexivity.
      * right. split; [exact H1|]. rewrite H2, Ht. reflexivity.
    + rewrite (drain_ok e fuel k q it rest Eq Et Eo).
      destruct (IH (S k) (set_stats (set_queue q rest) (bump_processed (stats (set_queue q rest)))))
        as [[H1 H2]|[H1 H2]].
      * rewrite budget_blist. simpl. lia.
      * left. split; [exact H1 | exact H2].
      * right. split; [exact H1 | exact H2].
Qed.

(** Every handler fulfils and the clock stays inside the session: the
    loop takes each item once, in order, counting it as processed. *)
Lemma drain_all_succeed e : forall l fuel k q,
  queue q = l -> List.length l <= fuel ->
  (forall j x, outcome e j x = None) ->
  (forall j, k <= j < k + List.length l -> (clock e j - start e <= processingTimeout q)%Z) ->
  queue (drain e fuel k q) = []
  /\ processed (stats (drain e fuel k q)) = processed (stats q) + List.length l
  /\ failed (stats (drain e fuel k q)) = failed (stats q)
  /\ timeouts (stats (drain e fuel k q)) = timeouts (stats q)
  /\ failedItems (drain e fuel k q) = failedItems q.
Proof.
  induction l as [|it rest IH]; intros fuel k q Hq Hf Ho Hc.
  - rewrite drain_nil by exact Hq. rewrite Hq. simpl. repeat split. lia.
  - destruct fuel as [|fuel]; [simpl in Hf; lia|].
    assert (Et : Z.ltb (processingTimeout q) (clock e k - start e) = false).
    { apply Z.ltb_ge. apply Hc. simpl. lia. }
    rewrite (drain_ok e fuel k q it rest Hq Et (Ho k it)).
    destruct (IH fuel (S k) (set_stats (set_queue q rest) (bump_processed (stats (set_queue q rest)))))
      as [H1 [H2 [H3 [H4 H5]]]].
    + reflexivity.
    + simpl in Hf. lia.
    + exact Ho.
    + intros j Hj. apply Hc. simpl. lia.
    + rewrite H1, H2, H3, H4, H5. simpl. repeat split. lia.
Qed.

End QueueDrain.

(** Drains of the sample queue: every handler fulfils, or the clock is
    already past the session budget at the first check. *)
Definition env_ok : Queue.env :=
  Queue.mkEnv 0 (fun _ => 0%Z) (fun _ _ => None) (fun _ => 0%Z).

Definition env_late : Queue.env :=
  Queue.mkEnv 0 (fun _ => 40000%Z) (fun _ _ => None) (fun _ => 0%Z).

(** X7: [processQueue] started idle always runs its loop to an end: it
    returns with [processing] false and either the queue emptied and no
    timeout counted, or the session timeout counted once and the queue
    still holding the items not yet taken. *)
Theorem processQueue_drains_or_times_out e q :
  Queue.processing q = false ->
  Queue.processing (Queue.processQueue e q) = false
  /\ ((Queue.queue (Queue.processQueue e q) = []
       /\ Queue.timeouts (Queue.stats (Queue.processQueue e q)) = Queue.timeouts (Queue.stats q))
      \/ (Queue.queue (Queue.processQueue e q) <> []
          /\ Queue.timeouts (Queue.stats (Queue.processQueue e q))
             = S (Queue.timeouts (Queue.stats q)))).
Proof.
  intros Hp. unfold Queue.processQueue. rewrite Hp.
  split; [reflexivity|].
  exact (QueueDrain.drain_ends e (Queue.budget q) 0 (Queue.set_processing q true) (le_n _)).
Qed.

Lemma processQueue_drains_or_times_out_witness :
  Queue.queue (Queue.processQueue env_failing q_one) = [].
Proof.
  destruct (processQueue_drains_or_times_out env_failing q_one eq_refl)
    as [_ [[H _]|[_ H]]]; [exact H|].
  exfalso. discriminate H.
Defined.

(** X8: when every handler fulfils and the clock stays inside the session
    budget, [processQueue] empties the queue, counts every item as
    processed, and neither fails, times out nor logs anything. *)
Theorem processQueue_all_succeed e q :
  Queue.processing q = false ->
  (forall j x, Queue.outcome e j x = None) ->
  (forall j, (j < List.length (Queue.queue q))%nat ->
     (Queue.clock e j - Queue.start e <= Queue.processingTimeout q)%Z) ->
  Queue.queue (Queue.processQueue e q) = []
  /\ Queue.processed (Queue.stats (Queue.processQueue e q))
     = (Queue.processed (Queue.stats q) + List.length (Queue.queue q))%nat
  /\ Queue.failed (Queue.stats (Queue.processQueue e q)) = Queue.failed (Queue.stats q)
  /\ Queue.timeouts (Queue.stats (Queue.processQueue e q)) = Queue.timeouts (Queue.stats q)
  /\ Queue.failedItems (Queue.processQueue e q) = Queue.failedItems q.
Proof.
  intros Hp Ho Hc. unfold Queue.processQueue. rewrite Hp.
  assert (Hl : (List.length (Queue.queue q) <= Queue.budget q)%nat).
  { rewrite QueueDrain.budget_blist. clear.
    induction (Queue.queue q) as [|it l IH]; simpl; lia. }
  exact (QueueDrain.drain_all_succeed e (Queue.queue q) (Queue.budget q) 0
           (Queue.set_processing q true) eq_refl Hl Ho (fun j Hj => Hc j (proj2 Hj))).
Qed.

Lemma processQueue_all_succeed_witness :
  Queue.processed (Queue.stats (Queue.processQueue env_ok q_one)) = 1%nat.
Proof.
  destruct (processQueue_all_succeed env_ok q_one eq_refl (fun _ _ => eq_refl)
              ltac:(intros j _; apply Z.leb_le; vm_compute; reflexivity))
    as [_ [H _]].
  exact H.
Defined.

(** X9: when the clock is already past the session budget at the first
    check, [processQueue] only counts a timeout: no item is taken and the
    queue is left as it was. *)
Theorem processQueue_session_timeout e q :
  Queue.processing q = false -> Queue.queue q <> [] ->
  (Queue.processingTimeout q < Queue.clock e 0 - Queue.start e)%Z ->
  Queue.processQueue e q
  = Queue.set_processing (Queue.set_stats q (Queue.bump_timeouts (Queue.stats q))) false.
Proof.
  intros Hp Hq Ht. unfold Queue.processQueue. rewrite Hp.
  destruct (Queue.queue q) as [|it rest] eqn:Eq; [congruence|].
  assert (Hb : Queue.budget q = S (Queue.maxRetries q - Queue.retries it
                                   + QueueDrain.blist (Queue.maxRetries q) rest)).
  { rewrite QueueDrain.budget_blist, Eq. reflexivity. }
  rewrite Hb.
  rewrite (QueueDrain.drain_timeout e _ 0 (Queue.set_processing q true) it rest Eq).
  - reflexivity.
  - apply Z.ltb_lt. exact Ht.
Qed.

Lemma processQueue_session_timeout_witness :
  Queue.queue (Queue.processQueue env_late q_one) = [item1]
  /\ Queue.timeouts (Queue.stats (Queue.processQueue env_late q_one)) = 1%nat.
Proof.
  rewrite (processQueue_session_timeout env_late q_one eq_refl ltac:(discriminate) eq_refl).
  split; reflexivity.
Defined.

Lemma sget_filter_sound {V} (p : V -> bool) (m : list (string * V)) k v :
  Sync.sget (filter (fun kv => p (snd kv)) m) k = Some v -> p v = true.
Proof.
  induction m as [|[k0 v0] m IH]; simpl; [discriminate|].
  destruct (p v0) eqn:Ep; simpl; [|exact IH].
  destruct (String.eqb k k0); [intros H; injection H as <-; exact Ep | exact IH].
Qed.

Lemma sget_filter_keep {V} (p : V -> bool) (m : list (string * V)) k v :
  Sync.sget m k = Some v -> p v = true ->
  Sync.sget (filter (fun kv => p (snd kv)) m) k = Some v.
Proof.
  induction m as [|[k0 v0] m IH]; simpl; [discriminate|].
  destruct (String.eqb k k0) eqn:E.
  - intros H Hp. injection H as <-. rewrite Hp. simpl. rewrite E. reflexivity.
  - intros H Hp. destruct (p v0); simpl; [rewrite E|]; exact (IH H Hp).
Qed.

Lemma filter_filter_weaker {A} (p p' : A -> bool) (l : list A) :
  (forall x, p x = true -> p' x = true) -> filter p (filter p' l) = filter p l.
Proof.
  intros H. induction l as [|x l IH]; simpl; [reflexivity|].
  destruct (p' x) eqn:E'; simpl.
  - destruct (p x); [rewrite IH; reflexivity | exact IH].
  - destruct (p x) eqn:E; [apply H in E; congruence | exact IH].
Qed.

(** X10: [cleanupFailedItems] keeps exactly the failure-log entries whose
    [failedAt] is not older than one hour: what it leaves was logged at or
    after [now - 3600000], and every such entry is still found under its
    id.  A later run subsumes an earlier one (the hourly timer may run it
    any number of times). *)
Theorem cleanupFailedItems_keeps_recent now q :
  (forall i fe, Sync.sget (Queue.failedItems (Queue.cleanupFailedItems now q)) i = Some fe ->
     (now - 3600000 <= Queue.failedAt fe)%Z)
  /\ (forall i fe, Sync.sget (Queue.failedItems q) i = Some fe ->
      (now - 3600000 <= Queue.failedAt fe)%Z ->
      Sync.sget (Queue.failedItems (Queue.cleanupFailedItems now q)) i = Some fe)
  /\ (forall now', (now <= now')%Z ->
      Queue.cleanupFailedItems now' (Queue.cleanupFailedItems now q)
      = Queue.cleanupFailedItems now' q).
Proof.
  unfold Queue.cleanupFailedItems. cbn [Queue.failedItems Queue.set_failedItems].
  split; [|split].
  - intros i fe H.
    apply (sget_filter_sound (fun fe => negb (Z.ltb (Queue.failedAt fe) (now - 60 * 60 * 1000))))
      in H.
    apply negb_true_iff, Z.ltb_ge in H. lia.
  - intros i fe H Hf.
    apply (sget_filter_keep (fun fe => negb (Z.ltb (Queue.failedAt fe) (now - 60 * 60 * 1000))))
      ; [exact H|].
    apply negb_true_iff, Z.ltb_ge. lia.
  - intros now' Hle. unfold Queue.set_failedItems. cbn [Queue.maxQueueSize
      Queue.processingTimeout Queue.handlerTimeout Queue.maxRetries Queue.processing
      Queue.queue Queue.failedItems Queue.stats].
    rewrite filter_filter_weaker; [reflexivity|].
    intros [i fe] H. simpl in H |- *.
    apply negb_true_iff, Z.ltb_ge in H. apply negb_true_iff, Z.ltb_ge. lia.
Qed.

Definition fe_old : Queue.failed_entry := Queue.mkFailed item1 "1 handlers failed" 1000.
Definition fe_new : Queue.failed_entry := Queue.mkFailed item1 "1 handlers failed" 4000000.

Lemma cleanupFailedItems_keeps_recent_witness :
  Sync.sget (Queue.failedItems
               (Queue.cleanupFailedItems 5000000
                  (Queue.set_failedItems q_one [("a", fe_old); ("b", fe_new)]))) "b"
  = Some fe_new
  /\ Queue.cleanupFailedItems 7000000
       (Queue.cleanupFailedItems 5000000 (Queue.set_failedItems q_one [("a", fe_old); ("b", fe_new)]))
     = Queue.cleanupFailedItems 7000000 (Queue.set_failedItems q_one [("a", fe_old); ("b", fe_new)]).
Proof.
  destruct (cleanupFailedItems_keeps_recent 5000000
              (Queue.set_failedItems q_one [("a", fe_old); ("b", fe_new)])) as [_ [H2 H3]].
  split.
  - apply (H2 "b" fe_new eq_refl). apply Z.leb_le. reflexivity.
  - apply H3. apply Z.leb_le. reflexivity.
Defined.

(** X11: below the size ceiling, [add] accepts exactly the object
    payloads: [null] (although [typeof null === 'object']) and every
    primitive are rejected with the invalid-data error and nothing is
    queued, while an object is pushed at the tail as a fresh item. *)
Theorem add_validates_payload e now i d q :
  (List.length (Queue.queue q) < Queue.maxQueueSize q)%nat ->
  (Queue.validateData d = true <-> exists fs, d = JObj fs)
  /\ ((forall fs, d <> JObj fs) -> Queue.add e now i d q = Storage.Throw Storage.InvalidQueueData)
  /\ (forall fs, d = JObj fs ->
      Queue.enqueue now i d q
      = Storage.Ok (Queue.set_queue q (app (Queue.queue q) [Queue.mkItem i d now 0 None]))).
Proof.
  intros H.
  assert (Hf : Nat.leb (Queue.maxQueueSize q) (List.length (Queue.queue q)) = false)
    by (apply Nat.leb_gt; exact H).
  assert (Hv : Queue.validateData d = true <-> exists fs, d = JObj fs).
  { unfold Queue.validateData. destruct d; simpl; rewrite ?andb_false_r;
      split; intros Hx; try discriminate; try (destruct Hx; discriminate).
    - eexists; reflexivity.
    - reflexivity. }
  split; [exact Hv|]. split.
  - intros Hn. unfold Queue.add, Queue.enqueue. rewrite Hf.
    assert (Ev : Queue.validateData d = false).
    { apply not_true_is_false. intros Ev. apply Hv in Ev as [fs Hfs]. exact (Hn fs Hfs). }
    rewrite Ev. reflexivity.
  - intros fs ->. unfold Queue.enqueue. rewrite Hf. reflexivity.
Qed.

Lemma add_validates_payload_witness :
  Queue.add env_ok 0 "i2" JNull q_one = Storage.Throw Storage.InvalidQueueData.
Proof.
  apply (add_validates_payload env_ok 0 "i2" JNull q_one).
  - apply Nat.ltb_lt. vm_compute. reflexivity.
  - intros fs. discriminate.
Defined.

(** ** Synchronization buckets: the types are independent *)

Module SyncOther.

Section Other.
Variables Op W : Type.
Variable exec : Z -> Op -> W -> W * bool.

Lemma sget_sset_other {V} (m : list (string * V)) k k' v :
  k' <> k -> sget (sset m k v) k' = sget m k'.
Proof.
  intros H. induction m as [|[k0 v0] m IH]; simpl.
  - apply String.eqb_neq in H. rewrite H. reflexivity.
  - destruct (String.eqb k k0) eqn:E; simpl.
    + apply String.eqb_eq in E. subst k0. apply String.eqb_neq in H. rewrite H. reflexivity.
    + destruct (String.eqb k' k0); [reflexivity | exact IH].
Qed.

Lemma existsb_filter_other (ty ty' : string) (l : list string) :
  ty' <> ty ->
  existsb (String.eqb ty') (filter (fun k => negb (String.eqb ty k)) l)
  = existsb (String.eqb ty') l.
Proof.
  intros H. induction l as [|k l IH]; simpl; [reflexivity|].
  destruct (String.eqb ty k) eqn:E; simpl.
  - apply String.eqb_eq in E. subst k. apply String.eqb_neq in H. rewrite H. exact IH.
  - rewrite IH. reflexivity.
Qed.

(** The state of type [ty'] in two bucket states. *)
Definition agree (ty' : string) (ss ss' : sync_state Op) : Prop :=
  bucket ty' ss' = bucket ty' ss /\ lock_held ty' ss' = lock_held ty' ss
  /\ last_sync_time ty' ss' = last_sync_time ty' ss.

Lemma agree_trans ty' ss1 ss2 ss3 : agree ty' ss1 ss2 -> agree ty' ss2 ss3 -> agree ty' ss1 ss3.
Proof. unfold agree. intros [A1 [B1 C1]] [A2 [B2 C2]]. rewrite A2, B2, C2. auto. Qed.

Lemma push_op_other ty ty' o ss : ty' <> ty -> agree ty' ss (push_op ty o ss).
Proof.
  intros H. unfold agree, bucket, push_op. simpl.
  rewrite sget_sset_other by exact H. auto.
Qed.

Lemma flush_begin_other now ty ty' ss ops ss1 :
  ty' <> ty -> flush_begin now ty ss = Some (ops, ss1) -> agree ty' ss ss1.
Proof.
  intros H. unfold flush_begin, acquireLock.
  destruct (lock_held ty ss); [discriminate|]. intros E. injection E as _ <-.
  unfold agree, bucket, lock_held, last_sync_time. simpl.
  rewrite !sget_sset_other by exact H.
  apply String.eqb_neq in H. rewrite H. auto.
Qed.

Lemma flush_end_other ty ty' ss : ty' <> ty -> agree ty' ss (flush_end ty ss).
Proof.
  intros H. unfold agree, flush_end, releaseLock, lock_held. simpl.
  rewrite existsb_filter_other by exact H. auto.
Qed.

Lemma queueSync_other now ty ty' o ss w :
  ty' <> ty -> agree ty' ss (fst (queueSync exec now ty o (ss, w))).
Proof.
  intros H. unfold queueSync.
  destruct (Z.ltb syncInterval (now - last_sync_time ty (push_op ty o ss))).
  - unfold processSyncQueue.
    destruct (flush_begin now ty (push_op ty o ss)) as [[ops ss1]|] eqn:Ef; simpl.
    + apply (agree_trans _ _ (push_op ty o ss)); [apply push_op_other, H|].
      apply (agree_trans _ _ ss1); [apply (flush_begin_other now ty ty' _ ops ss1 H Ef)|].
      apply flush_end_other, H.
    + apply push_op_other, H.
  - apply push_op_other, H.
Qed.

End Other.

End SyncOther.

(** X12: [queueSync] of one type leaves the bucket, the lock and the
    last-flush time of every other type as they were: a price flush in
    progress never holds up or empties the config bucket, and the
    reverse. *)
Theorem queueSync_other_type_untouched Op W (exec : Z -> Op -> W -> W * bool) now ty ty' o ss w :
  ty' <> ty ->
  bucket ty' (fst (queueSync exec now ty o (ss, w))) = bucket ty' ss
  /\ lock_held ty' (fst (queueSync exec now ty o (ss, w))) = lock_held ty' ss
  /\ last_sync_time ty' (fst (queueSync exec now ty o (ss, w))) = last_sync_time ty' ss.
Proof. intros H. exact (SyncOther.queueSync_other Op W exec now ty ty' o ss w H). Qed.

Lemma queueSync_other_type_untouched_witness :
  lock_held "config"
    (fst (queueSync Storage.exec_op 10000 "price" (Storage.OpMemSavePrice tok1 pr1)
            (mkSync ["config"] [("config", [Storage.OpRemoteUpdateConfig (JStr "k") (JStr "v")])] [],
             Storage.mkStores Memory.empty db_up)))
  = true.
Proof.
  exact (proj1 (proj2 (queueSync_other_type_untouched _ _ Storage.exec_op 10000 "price" "config"
                        (Storage.OpMemSavePrice tok1 pr1)
                        (mkSync ["config"]
                                [("config", [Storage.OpRemoteUpdateConfig (JStr "k") (JStr "v")])] [])
                        (Storage.mkStores Memory.empty db_up)
                        ltac:(apply String.eqb_neq; reflexivity)))).
Defined.

(** ** The facade over both stores *)

(** The buffered operations never touch the remote price rows. *)
Lemma run_ops_keeps_rows now ops w :
  Remote.rows (Storage.remote_s (run_ops Storage.exec_op now ops w))
  = Remote.rows (Storage.remote_s w)
  /\ Remote.reachable (Storage.remote_s (run_ops Storage.exec_op now ops w))
     = Remote.reachable (Storage.remote_s w).
Proof.
  revert w. induction ops as [|o ops IH]; intros w; [split; reflexivity|].
  cbn [run_ops]. destruct (IH (fst (Storage.exec_op now o w))) as [H1 H2].
  rewrite H1, H2. destruct o as [tok pr|key value]; [split; reflexivity|].
  cbn [Storage.exec_op fst Storage.remote_s]. unfold Remote.updateConfig.
  destruct value; cbn [fst Remote.rows Remote.reachable]; try (split; reflexivity);
    destruct (Remote.reachable (Storage.remote_s w)) eqn:E;
    cbn [fst Remote.rows Remote.reachable]; rewrite ?E; split; reflexivity.
Qed.

Lemma remote_getTokenPrice_rows t pool d d' :
  Remote.rows d' = Remote.rows d -> Remote.reachable d' = Remote.reachable d ->
  Remote.getTokenPrice t pool d' = Remote.getTokenPrice t pool d.
Proof. intros H1 H2. unfold Remote.getTokenPrice. rewrite H1, H2. reflexivity. Qed.

(** X13: in remote mode, [updateConfig(key, null)] passes the validation
    (only [undefined] is refused) and resolves, storing [null] in the
    local store, where [getConfig] reads it as [null]; the remote write it
    hands to the config bucket is refused by the remote store, so with no
    other config write pending the remote config is left as it was. *)
Theorem updateConfig_null_value_local_only now key f :
  Storage.useSupabase f = true -> nonempty_string key ->
  bucket "config" (Storage.sync f) = [] ->
  exists f', Storage.updateConfig now key JNull f = Storage.Ok f'
    /\ Storage.remote_s (Storage.st f') = Storage.remote_s (Storage.st f)
    /\ map_get (Memory.config (Storage.mem_s (Storage.st f'))) key = Some JNull
    /\ Memory.getConfig key (Storage.mem_s (Storage.st f')) = None.
Proof.
  intros Hu Hk Hb.
  assert (Hc : config_shape key JNull) by (split; [exact Hk | discriminate]).
  apply validate_config_iff in Hc.
  destruct Hk as [s [-> _]].
  assert (Hg : forall m, map_get (Memory.config (Memory.updateConfig (JStr s) JNull m)) (JStr s)
                         = Some JNull).
  { intros m. apply map_get_set_same. apply String.eqb_refl. }
  unfold Storage.updateConfig. rewrite Hc. facade_simpl. rewrite Hu.
  pose proof (SyncFacts.queueSync_cases _ _ Storage.exec_op now "config"
                (Storage.OpRemoteUpdateConfig (JStr s) JNull) (Storage.sync f)
                (Storage.mkStores (Memory.updateConfig (JStr s) JNull
                                     (Storage.mem_s (Storage.st f)))
                                  (Storage.remote_s (Storage.st f)))) as Hcase.
  destruct Hcase as [H | [ss' [H _]]]; rewrite H; eexists; (split; [reflexivity|]); facade_simpl.
  - split; [reflexivity|]. split; [apply Hg|].
    unfold Memory.getConfig. rewrite Hg. reflexivity.
  - rewrite Hb. cbn [app run_ops Storage.exec_op fst Storage.mem_s Storage.remote_s].
    split; [reflexivity|]. split; [apply Hg|].
    unfold Memory.getConfig. rewrite Hg. reflexivity.
Qed.

Lemma updateConfig_null_value_local_only_witness :
  exists f', Storage.updateConfig 20000 (JStr "sort_criteria") JNull f_up = Storage.Ok f'
    /\ Memory.getConfig (JStr "sort_criteria") (Storage.mem_s (Storage.st f')) = None.
Proof.
  assert (Hk : nonempty_string (JStr "sort_criteria")).
  { exists "sort_criteria". split; [reflexivity | discriminate]. }
  pose proof (updateConfig_null_value_local_only 20000 (JStr "sort_criteria") f_up eq_refl
                Hk eq_refl) as Hx.
  destruct Hx as [f' [H1 [_ [_ H4]]]].
  exists f'. split; [exact H1 | exact H4].
Defined.

(** X14: with [this.storage] the remote store and the store reachable, a
    price saved through the facade is read back through the facade for up
    to 30 s, whether or not the price bucket is flushed by the call (the
    buffered operations never touch the remote price rows). *)
Theorem facade_save_then_read_remote now t tok pr pool f :
  Storage.storage f = Storage.SupabaseStore ->
  Remote.reachable (Storage.remote_s (Storage.st f)) = true ->
  token_shape tok -> price_shape pr ->
  key_eqb (prop tok "poolAddress") pool = true ->
  (t <= now + 30000)%Z ->
  exists f', Storage.saveTokenPrice now tok pr f = Storage.Ok f'
    /\ Storage.getTokenPrice t pool f'
       = Some (JObj [("price", prop pr "price"); ("marketCap", prop pr "marketCap");
                     ("liquidity", prop pr "liquidity"); ("volume24h", prop pr "volume24h");
                     ("dexId", prop pr "dexId")]).
Proof.
  intros Hs Hr Ht Hp Hpool Htime.
  apply validate_token_iff in Ht. apply validate_price_iff in Hp.
  set (w1 := Storage.mkStores (Storage.mem_s (Storage.st f))
               (Remote.saveTokenPrice now tok pr (Storage.remote_s (Storage.st f)))).
  assert (Hread : Remote.getTokenPrice t pool (Storage.remote_s w1)
                  = Some (JObj [("price", prop pr "price"); ("marketCap", prop pr "marketCap");
                                ("liquidity", prop pr "liquidity");
                                ("volume24h", prop pr "volume24h"); ("dexId", prop pr "dexId")])).
  { subst w1. unfold Remote.getTokenPrice, Remote.saveTokenPrice.
    cbn [Storage.remote_s]. rewrite Hr.
    cbn [negb Remote.reachable Remote.rows Remote.latest_row Remote.r_pool_address].
    rewrite Hpool. cbn [Remote.r_updated_at Remote.r_price Remote.r_market_cap
                        Remote.r_liquidity Remote.r_volume_24h Remote.r_dex_id].
    ltb_cases; [lia | reflexivity]. }
  unfold Storage.saveTokenPrice. rewrite Ht, Hp. facade_simpl. rewrite Hs.
  cbn [Storage.storage_save]. fold w1.
  unfold Storage.getTokenPrice.
  destruct (Storage.useSupabase f).
  - pose proof (SyncFacts.queueSync_cases _ _ Storage.exec_op now "price"
                  (Storage.OpMemSavePrice tok pr) (Storage.sync f) w1) as Hcase.
    destruct Hcase as [H | [ss' [H _]]]; rewrite H; eexists; (split; [reflexivity|]); facade_simpl;
      rewrite Hs.
    + exact Hread.
    + pose proof (run_ops_keeps_rows now (app (bucket "price" (Storage.sync f))
                                            [Storage.OpMemSavePrice tok pr]) w1) as [H1 H2].
      rewrite (remote_getTokenPrice_rows _ _ _ _ H1 H2). exact Hread.
  - eexists; (split; [reflexivity|]). facade_simpl. rewrite Hs. exact Hread.
Qed.

Lemma facade_save_then_read_remote_witness :
  exists f', Storage.saveTokenPrice 10000 tok1 pr1 f_up = Storage.Ok f'
    /\ Storage.getTokenPrice 30000 (JStr "P1") f'
       = Some (JObj [("price", JNum (3 # 2)); ("marketCap", JNum 1000);
                     ("liquidity", JNum 250); ("volume24h", JNum 40); ("dexId", JStr "dex")]).
Proof.
  assert (Ht : token_shape tok1) by (apply validate_token_iff; reflexivity).
  assert (Hp : price_shape pr1) by (apply validate_price_iff; reflexivity).
  assert (Hle : (30000 <= 10000 + 30000)%Z) by (apply Z.leb_le; reflexivity).
  pose proof (facade_save_then_read_remote 10000 30000 tok1 pr1 (JStr "P1") f_up eq_refl eq_refl
                Ht Hp eq_refl Hle) as Hx.
  destruct Hx as [f' [H1 H2]].
  exists f'. split; [exact H1 | exact H2].
Defined.
